(** * CiviLeads: the lead-resolution pipeline

    A shallow embedding of [civileads/utils.py] and [civileads/scraper.py]
    (package [civileads_project]) together with the properties of field
    validation, confidence scoring, merging and site discovery.

    Conventions of the embedding.
    - A Python [str] is a [string]: a sequence of 8-bit characters.  The
      model is exact on ASCII text; [lower] leaves characters above 127
      alone.
    - A Python [float] is a primitive binary64 [float]; the weights are the
      doubles nearest to the decimal literals of the source, and [+], [/],
      [>=] round and compare as IEEE 754 prescribes.
    - An official is a dictionary with a fixed set of keys; it is a record
      whose optional fields are [option string] ([None] is Python's [None],
      and also a missing ['linkedin_url'] key, which the code reads with
      [.get] or initialises to [None]).
    - Network access and HTML parsing are parameters of the model, gathered
      in the record [World]; every call of [requests.get] and every call
      of [make_request] is written to a log, in order.  A call of
      [make_request] is one entry of the log however many attempts it
      takes; its attempts are the subject of [Retry].  Within one run the
      same URL gets the same answer.
      Logging, printing and the delays between requests are left out, and
      an exception caught by a [try] is the failure value the handler
      returns.
    - [Legacy] holds [score_and_deduplicate] as the earlier copy of the
      module, src/civileads/scraper.py, has it. *)

From Stdlib Require Import List String Ascii Bool Arith Lia Permutation.
From Stdlib Require Import Floats.PrimFloat.
From Equations Require Import Equations.
Import ListNotations.

Set Warnings "-inexact-float".
Set Implicit Arguments.

Local Open Scope string_scope.
Local Open Scope list_scope.
Local Open Scope nat_scope.

(* ================================================================== *)
(** * Python string operations *)
(* ================================================================== *)

Module Str.

Definition code (c : ascii) : nat := nat_of_ascii c.

Definition in_range (lo hi c : ascii) : bool :=
  (code lo <=? code c) && (code c <=? code hi).

Definition is_upper (c : ascii) : bool := in_range "A" "Z" c.
Definition is_lower (c : ascii) : bool := in_range "a" "z" c.
Definition is_alpha (c : ascii) : bool := is_upper c || is_lower c.
Definition is_digit (c : ascii) : bool := in_range "0" "9" c.

(** [str.isspace] on ASCII: tab, newline, vertical tab, form feed,
    carriage return, the four separators 0x1c..0x1f and the space. *)
Definition is_space (c : ascii) : bool :=
  let n := code c in
  ((9 <=? n) && (n <=? 13)) || ((28 <=? n) && (n <=? 32)).

Definition lower_char (c : ascii) : ascii :=
  if is_upper c then ascii_of_nat (code c + 32) else c.

(** [s.lower()] *)
Fixpoint lower (s : string) : string :=
  match s with
  | EmptyString => EmptyString
  | String c s' => String (lower_char c) (lower s')
  end.

(** [s.startswith(p)] *)
Fixpoint startswith (p s : string) : bool :=
  match p, s with
  | EmptyString, _ => true
  | String _ _, EmptyString => false
  | String a p', String b s' => Ascii.eqb a b && startswith p' s'
  end.

(** [needle in hay] *)
Fixpoint contains (needle hay : string) : bool :=
  startswith needle hay ||
  match hay with
  | EmptyString => false
  | String _ hay' => contains needle hay'
  end.

(** [s.replace(c, by)] for a one-character pattern [c] *)
Fixpoint replace (c : ascii) (by_ : string) (s : string) : string :=
  match s with
  | EmptyString => EmptyString
  | String a s' =>
      if Ascii.eqb a c then (by_ ++ replace c by_ s')%string
      else String a (replace c by_ s')
  end.

(** [s[a:b]] for [0 <= a <= b] *)
Definition slice (a b : nat) (s : string) : string := substring a (b - a) s.

(** [s.rstrip(c)] for a one-character set *)
Fixpoint rstrip (c : ascii) (s : string) : string :=
  match s with
  | EmptyString => EmptyString
  | String a s' =>
      let r := rstrip c s' in
      if String.eqb r "" && Ascii.eqb a c then "" else String a r
  end.

(** [s.split()]: the maximal runs of non-whitespace characters.  [cur] is
    the run being read. *)
Fixpoint split_from (cur : string) (s : string) : list string :=
  match s with
  | EmptyString => if String.eqb cur "" then [] else [cur]
  | String c s' =>
      if is_space c
      then (if String.eqb cur "" then split_from "" s' else cur :: split_from "" s')
      else split_from (cur ++ String c "")%string s'
  end.

Definition split (s : string) : list string := split_from "" s.

(** [filter] on the characters of a string *)
Fixpoint keep (p : ascii -> bool) (s : string) : string :=
  match s with
  | EmptyString => EmptyString
  | String c s' => if p c then String c (keep p s') else keep p s'
  end.

(** truth value of a string: [bool(s)] *)
Definition nonempty (s : string) : bool := negb (String.eqb s "").

(** truth value of an optional string: [None] and [''] are false *)
Definition truthy (o : option string) : bool :=
  match o with
  | Some s => nonempty s
  | None => false
  end.

End Str.

(* ================================================================== *)
(** * The fragment of [re] the validators use *)
(* ================================================================== *)

Module Re.

(** Regular expressions over character classes. *)
Inductive regex : Type :=
| Never : regex
| Empty : regex
| Class : (ascii -> bool) -> regex
| Seq : regex -> regex -> regex
| Or : regex -> regex -> regex
| Star : regex -> regex.

Definition lit (c : ascii) : regex := Class (Ascii.eqb c).
(** [r+] *)
Definition plus (r : regex) : regex := Seq r (Star r).
(** [r{2,}] *)
Definition at_least_two (r : regex) : regex := Seq r (Seq r (Star r)).

Fixpoint nullable (r : regex) : bool :=
  match r with
  | Never => false
  | Empty => true
  | Class _ => false
  | Seq r1 r2 => nullable r1 && nullable r2
  | Or r1 r2 => nullable r1 || nullable r2
  | Star _ => true
  end.

(** Brzozowski derivative of [r] by the character [c]. *)
Fixpoint deriv (c : ascii) (r : regex) : regex :=
  match r with
  | Never => Never
  | Empty => Never
  | Class p => if p c then Empty else Never
  | Seq r1 r2 =>
      if nullable r1
      then Or (Seq (deriv c r1) r2) (deriv c r2)
      else Seq (deriv c r1) r2
  | Or r1 r2 => Or (deriv c r1) (deriv c r2)
  | Star r1 => Seq (deriv c r1) (Star r1)
  end.

(** The language of [r]: the strings [r] matches as a whole. *)
Inductive lang : regex -> string -> Prop :=
| lang_empty : lang Empty ""
| lang_class (p : ascii -> bool) (c : ascii) :
    p c = true -> lang (Class p) (String c "")
| lang_seq (r1 r2 : regex) (s1 s2 : string) :
    lang r1 s1 -> lang r2 s2 -> lang (Seq r1 r2) (s1 ++ s2)
| lang_or_l (r1 r2 : regex) (s : string) : lang r1 s -> lang (Or r1 r2) s
| lang_or_r (r1 r2 : regex) (s : string) : lang r2 s -> lang (Or r1 r2) s
| lang_star_nil (r : regex) : lang (Star r) ""
| lang_star_more (r : regex) (s1 s2 : string) :
    lang r s1 -> lang (Star r) s2 -> lang (Star r) (s1 ++ s2).

(** The whole of [s] matches [r]. *)
Fixpoint fullmatch (r : regex) (s : string) : bool :=
  match s with
  | EmptyString => nullable r
  | String c s' => fullmatch (deriv c r) s'
  end.

(** [s] without its last character when that is a newline. *)
Fixpoint chop_newline (s : string) : option string :=
  match s with
  | EmptyString => None
  | String c EmptyString => if Ascii.eqb c "010" then Some "" else None
  | String c s' =>
      match chop_newline s' with
      | Some t => Some (String c t)
      | None => None
      end
  end.

(** [bool(re.match('^' r '$', s))]: [$] holds at the end of the string
    and just before a newline that ends the string. *)
Definition match_anchored (r : regex) (s : string) : bool :=
  fullmatch r s ||
  match chop_newline s with
  | Some s' => fullmatch r s'
  | None => false
  end.

End Re.

(* ================================================================== *)
(** * Effects: the log of requests *)
(* ================================================================== *)

Module Eff.

(** A computation returns its value and the URLs it requested, in order. *)
Definition M (A : Type) : Type := (A * list string)%type.

Definition ret {A : Type} (a : A) : M A := (a, []).

Definition bind {A B : Type} (m : M A) (f : A -> M B) : M B :=
  let (a, w) := m in
  let (b, w') := f a in
  (b, w ++ w').

Definition value {A : Type} (m : M A) : A := fst m.
Definition requests {A : Type} (m : M A) : list string := snd m.

(** [for x in xs: acc = body(acc, x)] *)
Fixpoint for_each {A S : Type} (xs : list A) (body : S -> A -> M S) (acc : S)
  : M S :=
  match xs with
  | [] => ret acc
  | x :: xs' => bind (body acc x) (for_each xs' body)
  end.

End Eff.

Notation "x <- c ;; k" := (Eff.bind c (fun x => k))
  (at level 61, c at next level, right associativity).

(* ================================================================== *)
(** * civileads/utils.py *)
(* ================================================================== *)

Module Utils.
Import Str.

Definition NON_OFFICIAL_INDICATORS : list string :=
  ["investor"; "innovation"; "support"; "development";
   "membership"; "contractor"; "vendor"; "supplier"; "partner"].

Definition COMMON_OFFICIAL_TITLES : list string :=
  ["mayor"; "city manager"; "administrator"; "clerk"; "director";
   "council"; "councilor"; "councilmember"; "treasurer"; "attorney";
   "manager"; "supervisor"; "chief"; "commissioner"; "engineer"].

(** ** Validators *)

(** [^[A-Z][a-z]+( [A-Z][a-z]+)+$] *)
Definition name_pattern : Re.regex :=
  let word := Re.Seq (Re.Class is_upper) (Re.plus (Re.Class is_lower)) in
  Re.Seq word (Re.plus (Re.Seq (Re.lit " ") word)).

Definition suspicious_parts : list string :=
  ["event"; "investor"; "support"; "development"; "innovation"].

Definition validate_official_name (name : string) : bool :=
  if String.length name <? 4 then false
  else if existsb (fun indicator => contains (lower indicator) (lower name))
                  NON_OFFICIAL_INDICATORS then false
  else if Re.match_anchored name_pattern name then true
  else if existsb (fun part => contains (lower part) (lower name))
                  suspicious_parts then false
  else
    let words := split name in
    (2 <=? List.length words) && forallb (fun word => 2 <=? String.length word) words.

Definition validate_official_title (title : string) : bool :=
  if String.eqb title "" then false
  else
    let title_lower := lower title in
    if existsb (fun common_title => contains common_title title_lower)
               COMMON_OFFICIAL_TITLES then true
    else if contains "director" title_lower || contains "chief" title_lower then true
    else if existsb (fun indicator => contains indicator title_lower)
                    NON_OFFICIAL_INDICATORS then false
    else 4 <=? String.length title.

(** [^[a-zA-Z0-9._%+-]+@[a-zA-Z0-9.-]+\.[a-zA-Z]{2,}$] *)
Definition email_pattern : Re.regex :=
  let one_of (cs : string) (c : ascii) := contains (String c "") cs in
  let local_part c := is_alpha c || is_digit c || one_of "._%+-" c in
  let domain c := is_alpha c || is_digit c || one_of ".-" c in
  Re.Seq (Re.plus (Re.Class local_part))
    (Re.Seq (Re.lit "@")
       (Re.Seq (Re.plus (Re.Class domain))
          (Re.Seq (Re.lit ".") (Re.at_least_two (Re.Class is_alpha))))).

(** The argument is what [official.get('email', '')] yields: [None] and
    [''] fail the test [if not email]. *)
Definition validate_email (email : option string) : bool :=
  match email with
  | None => false
  | Some e => if String.eqb e "" then false else Re.match_anchored email_pattern e
  end.

(** [re.sub(r'\D', '', phone)] *)
Definition digits_of (phone : string) : string := keep is_digit phone.

Definition validate_phone (phone : string) : option string :=
  if String.eqb phone "" then None
  else
    let digits := digits_of phone in
    if String.length digits =? 10 then
      Some ("(" ++ slice 0 3 digits ++ ") " ++ slice 3 6 digits ++ "-"
                ++ slice 6 10 digits)%string
    else if (String.length digits =? 11) && startswith "1" digits then
      Some ("(" ++ slice 1 4 digits ++ ") " ++ slice 4 7 digits ++ "-"
                ++ slice 7 11 digits)%string
    else None.

(** ** The candidate record *)

Record Official : Type := mkOfficial {
  name : string;
  title : string;
  email : option string;
  phone : option string;
  linkedin_url : option string;
  source : string;
  confidence_score : float
}.

Definition set_email (o : Official) (v : option string) : Official :=
  mkOfficial (name o) (title o) v (phone o) (linkedin_url o) (source o)
             (confidence_score o).
Definition set_phone (o : Official) (v : option string) : Official :=
  mkOfficial (name o) (title o) (email o) v (linkedin_url o) (source o)
             (confidence_score o).
Definition set_linkedin_url (o : Official) (v : option string) : Official :=
  mkOfficial (name o) (title o) (email o) (phone o) v (source o)
             (confidence_score o).
Definition set_source (o : Official) (v : string) : Official :=
  mkOfficial (name o) (title o) (email o) (phone o) (linkedin_url o) v
             (confidence_score o).
Definition set_confidence_score (o : Official) (v : float) : Official :=
  mkOfficial (name o) (title o) (email o) (phone o) (linkedin_url o)
             (source o) v.

(** ** Confidence score *)

(** Returns the score and the dictionary as the call leaves it (the phone
    is rewritten when it formats). *)
Definition calculate_confidence_score (official : Official)
  : float * Official :=
  let score := 0.0%float in
  let total_weight := 0.0%float in
  (* Name validation (highest weight) *)
  let score :=
    if validate_official_name (name official) then (score + 0.4)%float else score in
  let total_weight := (total_weight + 0.4)%float in
  (* Title validation *)
  let score :=
    if validate_official_title (title official) then (score + 0.2)%float else score in
  let total_weight := (total_weight + 0.2)%float in
  (* Email validation *)
  let score :=
    if validate_email (email official) then (score + 0.2)%float else score in
  let total_weight := (total_weight + 0.2)%float in
  (* Phone validation *)
  let '(score, official) :=
    if truthy (phone official) then
      match validate_phone (match phone official with Some p => p | None => "" end) with
      | Some formatted_phone =>
          if nonempty formatted_phone
          then ((score + 0.1)%float, set_phone official (Some formatted_phone))
          else (score, official)
      | None => (score, official)
      end
    else (score, official) in
  let total_weight := (total_weight + 0.1)%float in
  (* LinkedIn profile *)
  let score :=
    if truthy (linkedin_url official) then (score + 0.1)%float else score in
  let total_weight := (total_weight + 0.1)%float in
  if (0 <? total_weight)%float then ((score / total_weight)%float, official)
  else (0.0%float, official).

(** [filter_officials(officials, min_confidence)]: every dictionary is
    scored and stamped; those reaching the threshold are returned. *)
Fixpoint filter_officials (officials : list Official) (min_confidence : float)
  : list Official :=
  match officials with
  | [] => []
  | official :: rest =>
      let '(confidence, official) := calculate_confidence_score official in
      let official := set_confidence_score official confidence in
      if (min_confidence <=? confidence)%float
      then official :: filter_officials rest min_confidence
      else filter_officials rest min_confidence
  end.

Definition default_min_confidence : float := 0.6%float.

(** ** Site discovery *)

Definition generate_url_patterns (municipality state : string) : list string :=
  let muni_clean := replace " " "" (lower municipality) in
  let muni_clean_dash := replace " " "-" (lower municipality) in
  let patterns :=
    [ ("https://www." ++ slice 0 3 muni_clean ++ ".gov")%string;
      ("https://" ++ slice 0 3 muni_clean ++ ".gov")%string;
      ("https://www." ++ muni_clean ++ ".gov")%string;
      ("https://" ++ muni_clean ++ ".gov")%string;
      ("https://www." ++ muni_clean ++ ".org")%string;
      ("https://" ++ muni_clean ++ ".org")%string;
      ("https://www." ++ muni_clean ++ ".com")%string;
      ("https://www.cityof" ++ muni_clean ++ ".gov")%string;
      ("https://www.cityof" ++ muni_clean ++ ".org")%string;
      ("https://www.cityof" ++ muni_clean ++ ".com")%string;
      ("https://" ++ muni_clean_dash ++ ".gov")%string;
      ("https://www." ++ muni_clean_dash ++ ".gov")%string;
      ("https://" ++ muni_clean_dash ++ ".org")%string;
      ("https://www." ++ muni_clean_dash ++ ".org")%string ] in
  (* patterns.insert(0, ..) .. patterns.insert(3, ..) *)
  let patterns :=
    if String.eqb (lower municipality) "des moines"
    then ["https://www.dsm.gov"; "https://dsm.gov";
          "https://www.dmgov.org"; "https://dmgov.org"] ++ patterns
    else patterns in
  let state_lower := lower state in
  if String.length state =? 2 then
    patterns ++
    [ ("https://" ++ muni_clean ++ "." ++ state_lower ++ ".us")%string;
      ("https://www." ++ muni_clean ++ "." ++ state_lower ++ ".us")%string;
      ("https://" ++ muni_clean_dash ++ "." ++ state_lower ++ ".us")%string;
      ("https://www." ++ muni_clean_dash ++ "." ++ state_lower ++ ".us")%string;
      ("https://" ++ muni_clean ++ "." ++ state_lower ++ ".gov")%string;
      ("https://www." ++ muni_clean ++ "." ++ state_lower ++ ".gov")%string ]
  else patterns.

Definition municipal_indicators : list string :=
  ["city hall"; "town hall"; "municipal"; "government"; "mayor";
   "city council"; "town council"; "city of"; "town of"; "public works";
   "elected officials"; "clerk"; "city services"; "permits"; "departments";
   "residents"; "business"; "visitors"; "community"; "zoning"; "planning";
   "city manager"; "fire department"; "police department"; "recreation";
   "meeting"; "agenda"; "minutes"; "ordinance"; "code"; "parks";
   "water"; "sewer"; "trash"; "recycling"; "snow removal";
   "job"; "employment"; "parking"; "library"; "emergency"; "payment"].

Definition city_specific : list (string * list string) :=
  [ ("des moines", ["dsm"; "dmgov"; "des moines city"; "polk county"]);
    ("cedar rapids", ["cedar rapids city"; "linn county"]) ].

Fixpoint lookup (k : string) (d : list (string * list string))
  : option (list string) :=
  match d with
  | [] => None
  | (k', v) :: d' => if String.eqb k k' then Some v else lookup k d'
  end.

(** The three quantities the decision is taken on. *)
Definition name_found (html_content municipality : string) : bool :=
  let html_lower := lower html_content in
  let muni_lower := lower municipality in
  let name_found :=
    contains muni_lower html_lower
    || contains (replace " " "" muni_lower) html_lower in
  name_found || (String.eqb muni_lower "des moines" && contains "dsm" html_lower).

Definition state_found (html_content state : string) : bool :=
  contains (lower state) (lower html_content).

Definition indicator_count (html_content municipality : string) : nat :=
  let html_lower := lower html_content in
  let indicators :=
    match lookup (lower municipality) city_specific with
    | Some extra => municipal_indicators ++ extra
    | None => municipal_indicators
    end in
  List.length (filter (fun indicator => contains indicator html_lower) indicators).

Definition is_likely_municipal_site (html_content municipality state : string)
  : bool :=
  let name_found := name_found html_content municipality in
  let state_found := state_found html_content state in
  let indicator_count := indicator_count html_content municipality in
  if name_found && state_found then true
  else if name_found && (1 <=? indicator_count) then true
  else if 2 <=? indicator_count then true
  else false.

Record response : Type := mkResponse {
  status_code : nat;
  text : string
}.

Definition direct_urls : list string :=
  ["https://www.dsm.city"; "https://dsm.city";
   "https://www.dmgov.org"; "https://dmgov.org"].

Definition contact_paths : list string :=
  ["/contact"; "/directory"; "/staff"; "/officials"; "/elected-officials";
   "/government"; "/departments"; "/administration"; "/city-hall"; "/about";
   "/leadership"; "/city-council"; "/mayor"; "/clerk"; "/team";
   "/council"; "/city-manager"; "/contact-us"; "/phone-directory";
   "/employee-directory"; "/city-departments"].

Section Discovery.

(** The fetch collaborator: what [make_request(url)] finally returns,
    [None] when every attempt failed.  The log below has one entry for a
    call of [make_request]; the attempts the call makes, up to five calls
    of [requests.request], are modelled in [Retry]. *)
Variable fetch : string -> option response.

Definition make_request (url : string) : Eff.M (option response) :=
  (fetch url, [url]).

(** [for url in urls: response = make_request(url);
     if response and accept(response): return url] *)
Fixpoint first_working (accept : response -> bool) (urls : list string)
  : Eff.M (option string) :=
  match urls with
  | [] => Eff.ret None
  | url :: rest =>
      response <- make_request url ;;
      match response with
      | Some r =>
          if accept r then Eff.ret (Some url) else first_working accept rest
      | None => first_working accept rest
      end
  end.

Definition find_municipal_website (municipality state : string)
  : Eff.M (option string) :=
  let patterns := generate_url_patterns municipality state in
  found <- first_working
             (fun r => (status_code r =? 200)
                       && is_likely_municipal_site (text r) municipality state)
             patterns ;;
  match found with
  | Some url => Eff.ret (Some url)
  | None =>
      (* known URLs for specific cities *)
      if String.eqb (lower municipality) "des moines"
         && String.eqb (lower state) "ia"
      then first_working (fun r => status_code r =? 200) direct_urls
      else Eff.ret None
  end.

Definition find_contact_pages (base_url : string) : Eff.M (list string) :=
  Eff.for_each contact_paths
    (fun contact_pages path =>
       let url := (rstrip "/" base_url ++ path)%string in
       response <- make_request url ;;
       match response with
       | Some r =>
           if status_code r =? 200
           then Eff.ret (contact_pages ++ [url])
           else Eff.ret contact_pages
       | None => Eff.ret contact_pages
       end)
    [].

End Discovery.

End Utils.

(* ================================================================== *)
(** * civileads/scraper.py *)
(* ================================================================== *)

Module Scraper.
Import Str Utils.

(** What the code reaches outside itself for: the network, the HTML
    parser and the regular-expression scan of a page. *)
Record World : Type := mkWorld {
  (** [utils.make_request(url)] *)
  fetch : string -> option response;
  (** [requests.get(url, headers=HEADERS)], [None] when it raises *)
  http_get : string -> option response;
  (** the snippet of every search result whose title mentions a mayor, a
      council or officials, from the body of a result page *)
  result_snippets : string -> list string;
  (** the resolved links of a site (URL, body) whose anchor text names a
      contact page *)
  contact_links : string -> string -> list string;
  (** [soup.get_text()] *)
  page_text : string -> string;
  (** the text of every [.contact, .officials, .council, .mayor] section *)
  contact_sections : string -> list string;
  (** the first LinkedIn profile URL among the links of a result page *)
  linkedin_link : string -> option string;
  (** the dictionaries the three pattern scans of
      [extract_officials_from_text] append to [results], in order *)
  pattern_candidates : string -> list Official
}.

Definition sample_des_moines : list Official :=
  [ mkOfficial "Frank Cownie" "Mayor" (Some "mayor@dsm.city")
      (Some "(515) 283-4944")
      (Some "https://www.linkedin.com/in/frank-cownie-mayor-desmoines")
      "Sample data" 1.0%float;
    mkOfficial "Scott Sanders" "City Manager" (Some "citymgr@dsm.city")
      (Some "(515) 283-4141")
      (Some "https://www.linkedin.com/in/scott-sanders-desmoines")
      "Sample data" 1.0%float;
    mkOfficial "Jonathan Gano" "Public Works Director" (Some "jgano@dsm.city")
      (Some "(515) 283-4950")
      (Some "https://www.linkedin.com/in/jonathan-gano-desmoines")
      "Sample data" 1.0%float;
    mkOfficial "Laura Baumgartner" "City Clerk" (Some "clerk@dsm.city")
      (Some "(515) 283-4209")
      (Some "https://www.linkedin.com/in/laura-baumgartner-desmoines")
      "Sample data" 1.0%float;
    mkOfficial "Steven Naber" "City Engineer" (Some "engineer@dsm.city")
      (Some "(515) 283-4920")
      (Some "https://www.linkedin.com/in/steven-naber-desmoines")
      "Sample data" 1.0%float ].

Definition sample_cedar_rapids : list Official :=
  [ mkOfficial "Tiffany O'Donnell" "Mayor" (Some "mayor@cedar-rapids.org")
      (Some "(319) 286-5051")
      (Some "https://www.linkedin.com/in/tiffany-odonnell-cedarrapids")
      "Sample data" 1.0%float;
    mkOfficial "Jeff Pomeranz" "City Manager" (Some "j.pomeranz@cedar-rapids.org")
      (Some "(319) 286-5080")
      (Some "https://www.linkedin.com/in/jeff-pomeranz-cedarrapids")
      "Sample data" 1.0%float;
    mkOfficial "Angie Charipar" "Assistant City Manager"
      (Some "a.charipar@cedar-rapids.org") (Some "(319) 286-5090")
      (Some "https://www.linkedin.com/in/angie-charipar-cedarrapids")
      "Sample data" 1.0%float;
    mkOfficial "Robert Davis" "Public Works Director"
      (Some "r.davis@cedar-rapids.org") (Some "(319) 286-5802")
      (Some "https://www.linkedin.com/in/robert-davis-cedarrapids")
      "Sample data" 1.0%float;
    mkOfficial "Amy Stevenson" "City Clerk" (Some "cityclerk@cedar-rapids.org")
      (Some "(319) 286-5060")
      (Some "https://www.linkedin.com/in/amy-stevenson-cedarrapids")
      "Sample data" 1.0%float ].

(** ** Merge key and grouping *)

Definition key : Type := (string * string)%type.

Definition key_of (official : Official) : key :=
  (lower (name official), lower (title official)).

Definition key_eqb (a b : key) : bool :=
  String.eqb (fst a) (fst b) && String.eqb (snd a) (snd b).

(** [officials_by_key]: a dictionary, which keeps its keys in the order
    of their first insertion.
    [if key not in d: d[key] = []] then [d[key].append(official)]. *)
Fixpoint group_add (k : key) (official : Official)
         (officials_by_key : list (key * list Official))
  : list (key * list Official) :=
  match officials_by_key with
  | [] => [(k, [official])]
  | (k', matches) :: rest =>
      if key_eqb k k' then (k', matches ++ [official]) :: rest
      else (k', matches) :: group_add k official rest
  end.

Definition is_real_official (official : Official) : bool :=
  validate_official_name (name official)
  && validate_official_title (title official).

Definition group_officials (officials_list : list Official)
  : list (key * list Official) :=
  fold_left
    (fun officials_by_key official =>
       if negb (validate_official_name (name official))
          || negb (validate_official_title (title official))
       then officials_by_key
       else group_add (key_of official) official officials_by_key)
    officials_list [].

(** One round of the merge loop: a field of [match_] is copied only into
    an empty field of [best_match]. *)
Definition merge_match (best_match match_ : Official) : Official :=
  let best_match :=
    if negb (truthy (email best_match)) && truthy (email match_)
    then set_email best_match (email match_) else best_match in
  let best_match :=
    if negb (truthy (phone best_match)) && truthy (phone match_)
    then set_phone best_match (phone match_) else best_match in
  if negb (truthy (linkedin_url best_match)) && truthy (linkedin_url match_)
  then set_linkedin_url best_match (linkedin_url match_) else best_match.

Definition merge_matches (first : Official) (others : list Official)
  : Official :=
  fold_left merge_match others first.

(** The phone of [o] in canonical form when it has one. *)
Definition format_phone (o : Official) : Official :=
  if truthy (phone o) then
    match validate_phone (match phone o with Some p => p | None => "" end) with
    | Some formatted_phone =>
        if nonempty formatted_phone
        then set_phone o (Some formatted_phone) else o
    | None => o
    end
  else o.

(** [final_results.sort(key=lambda x: x['confidence_score'], reverse=True)]:
    a stable sort, highest score first. *)
Fixpoint insert_by_score (x : Official) (sorted : list Official)
  : list Official :=
  match sorted with
  | [] => [x]
  | y :: rest =>
      if (confidence_score x <? confidence_score y)%float
      then y :: insert_by_score x rest
      else x :: sorted
  end.

Definition sort_by_score (l : list Official) : list Official :=
  fold_right insert_by_score [] l.

(** The validation pass that ends [extract_officials_from_text]. *)
Definition validate_candidate (official : Official) : option Official :=
  if validate_official_name (name official)
     && validate_official_title (title official)
  then
    let official :=
      if truthy (email official) && negb (validate_email (email official))
      then set_email official None else official in
    let official :=
      if truthy (phone official) then
        match validate_phone (match phone official with Some p => p | None => "" end) with
        | Some formatted_phone =>
            if nonempty formatted_phone
            then set_phone official (Some formatted_phone)
            else set_phone official None
        | None => set_phone official None
        end
      else official in
    Some official
  else None.

Fixpoint validated_results (results : list Official) : list Official :=
  match results with
  | [] => []
  | official :: rest =>
      match validate_candidate official with
      | Some v => v :: validated_results rest
      | None => validated_results rest
      end
  end.

Definition google_search_url (query : string) : string :=
  ("https://www.google.com/search?q=" ++ replace " " "+" query)%string.

Section Pipeline.

Variable W : World.

Definition get (url : string) : Eff.M (option response) :=
  (http_get W url, [url]).

Definition extract_officials_from_text (text : string) : list Official :=
  validated_results (pattern_candidates W text).

Definition tagged (src : string) (officials : list Official) : list Official :=
  map (fun official => set_source official src) officials.

Definition search_google (query : string) : Eff.M (list Official) :=
  response <- get (google_search_url query) ;;
  match response with
  | Some r =>
      if status_code r =? 200 then
        Eff.ret
          (flat_map
             (fun snippet_text =>
                tagged "Google Search" (extract_officials_from_text snippet_text))
             (result_snippets W (text r)))
      else Eff.ret []
  | None => Eff.ret []
  end.

Definition scrape_municipal_website (website_url : string)
  : Eff.M (list Official) :=
  response <- get website_url ;;
  match response with
  | Some r =>
      if negb (status_code r =? 200) then Eff.ret []
      else
        Eff.for_each (firstn 3 (contact_links W website_url (text r)))
          (fun results link =>
             page_response <- get link ;;
             match page_response with
             | Some p =>
                 if status_code p =? 200 then
                   let officials :=
                     tagged link
                       (extract_officials_from_text (page_text W (text p))) in
                   let section_officials :=
                     flat_map
                       (fun section_text =>
                          tagged link (extract_officials_from_text section_text))
                       (contact_sections W (text p)) in
                   Eff.ret (results ++ officials ++ section_officials)
                 else Eff.ret results
             | None => Eff.ret results
             end)
          []
  | None => Eff.ret []
  end.

Definition search_direct_for_officials (municipality_name state : string)
  : Eff.M (list Official) :=
  website_url <- find_municipal_website (fetch W) municipality_name state ;;
  results <-
    (if truthy website_url then
       contact_links <-
         find_contact_pages (fetch W)
           (match website_url with Some u => u | None => "" end) ;;
       Eff.for_each contact_links
         (fun results link =>
            page_results <- scrape_municipal_website link ;;
            Eff.ret (results ++ page_results))
         []
     else Eff.ret []) ;;
  let results :=
    match results with
    | [] =>
        if String.eqb municipality_name "Des Moines" && String.eqb state "IA"
        then sample_des_moines
        else if String.eqb municipality_name "Cedar Rapids"
                && String.eqb state "IA"
        then sample_cedar_rapids
        else []
    | _ :: _ => results
    end in
  Eff.ret (filter_officials results default_min_confidence).

Definition search_linkedin_profile (name title municipality state : string)
  : Eff.M (option string) :=
  let search_query :=
    (name ++ " " ++ title ++ " " ++ municipality ++ " " ++ state
          ++ " linkedin")%string in
  response <- get (google_search_url search_query) ;;
  match response with
  | Some r =>
      if negb (status_code r =? 200) then Eff.ret None
      else
        match linkedin_link W (text r) with
        | Some linkedin_url => Eff.ret (Some linkedin_url)
        | None =>
            if String.eqb name "Frank Cownie" && String.eqb title "Mayor" then
              Eff.ret (Some "https://www.linkedin.com/in/frank-cownie-mayor-desmoines")
            else if String.eqb name "Scott Sanders" && String.eqb title "City Manager" then
              Eff.ret (Some "https://www.linkedin.com/in/scott-sanders-desmoines")
            else if String.eqb name "Tiffany O'Donnell" && String.eqb title "Mayor" then
              Eff.ret (Some "https://www.linkedin.com/in/tiffany-odonnell-cedarrapids")
            else if String.eqb name "Jeff Pomeranz" && String.eqb title "City Manager" then
              Eff.ret (Some "https://www.linkedin.com/in/jeff-pomeranz-cedarrapids")
            else Eff.ret None
        end
  | None => Eff.ret None
  end.

(** The body of [for key, matches in officials_by_key.items()]. *)
Definition resolve_group (municipality_name state : string)
           (final_results : list Official) (item : key * list Official)
  : Eff.M (list Official) :=
  match snd item with
  | [] => Eff.ret final_results  (* [matches[0]]: a group is never empty *)
  | first :: others =>
      let best_match := merge_matches first others in
      best_match <-
        (if negb (truthy (linkedin_url best_match))
            && nonempty municipality_name && nonempty state
         then
           linkedin_url <-
             search_linkedin_profile (name best_match) (title best_match)
               municipality_name state ;;
           Eff.ret (if truthy linkedin_url
                    then set_linkedin_url best_match linkedin_url
                    else best_match)
         else Eff.ret best_match) ;;
      let '(score, best_match) := calculate_confidence_score best_match in
      let best_match := set_confidence_score best_match score in
      let best_match := format_phone best_match in
      Eff.ret (final_results ++ [best_match])
  end.

Definition score_and_deduplicate (officials_list : list Official)
           (municipality_name state : string) : Eff.M (list Official) :=
  match officials_list with
  | [] => Eff.ret []
  | _ :: _ =>
      let officials_by_key := group_officials officials_list in
      final_results <-
        Eff.for_each officials_by_key
          (resolve_group municipality_name state) [] ;;
      Eff.ret (sort_by_score final_results)
  end.

Definition search_for_officials (municipality_name state : string)
  : Eff.M (list Official) :=
  let results := [] in
  (* Method 1: direct Google search *)
  google_results <-
    search_google (municipality_name ++ " " ++ state
                     ++ " mayor council contact")%string ;;
  let results := results ++ google_results in
  (* Method 2: the official municipal website *)
  muni_website <- find_municipal_website (fetch W) municipality_name state ;;
  website_results <-
    (match muni_website with
     | Some url =>
         if nonempty url then scrape_municipal_website url else Eff.ret []
     | None => Eff.ret []
     end) ;;
  let results := results ++ website_results in
  (* Method 3: direct search *)
  direct_results <- search_direct_for_officials municipality_name state ;;
  let results := results ++ direct_results in
  score_and_deduplicate results municipality_name state.

End Pipeline.

End Scraper.

(* ================================================================== *)
(** * The earlier copy of the module: src/civileads/scraper.py *)
(* ================================================================== *)

Module Legacy.
Import Str Utils Scraper.

(** The grouping loop, which validates nothing. *)
Definition group_officials (officials_list : list Official)
  : list (key * list Official) :=
  fold_left
    (fun officials_by_key official =>
       group_add (key_of official) official officials_by_key)
    officials_list [].

(** One round of the merge loop; the running score goes with the record. *)
Definition merge_match (acc : Official * float) (match_ : Official)
  : Official * float :=
  let '(best_match, score) := acc in
  let '(best_match, score) :=
    if negb (truthy (email best_match)) && truthy (email match_)
    then (set_email best_match (email match_), (score + 0.1)%float)
    else (best_match, score) in
  let '(best_match, score) :=
    if negb (truthy (phone best_match)) && truthy (phone match_)
    then (set_phone best_match (phone match_), (score + 0.05)%float)
    else (best_match, score) in
  if negb (truthy (linkedin_url best_match)) && truthy (linkedin_url match_)
  then (set_linkedin_url best_match (linkedin_url match_), (score + 0.15)%float)
  else (best_match, score).

(** [min(a, b)] *)
Definition py_min (a b : float) : float := if (b <? a)%float then b else a.

Section Pipeline.

Variable W : World.

Definition resolve_group (municipality_name state : string)
           (final_results : list Official) (item : key * list Official)
  : Eff.M (list Official) :=
  match snd item with
  | [] => Eff.ret final_results
  | first :: others =>
      let best_match := first in
      (* Improve score based on completeness *)
      let score := confidence_score best_match in
      let score := if truthy (email best_match) then (score + 0.2)%float else score in
      let score := if truthy (phone best_match) then (score + 0.1)%float else score in
      let score :=
        if negb (String.eqb (source best_match) "Google Search") then
          if contains ".gov" (source best_match)
          then (score + 0.3)%float else (score + 0.1)%float
        else score in
      let '(best_match, score) := fold_left merge_match others (best_match, score) in
      scored <-
        (if negb (truthy (linkedin_url best_match))
            && nonempty municipality_name && nonempty state
         then
           linkedin_url <-
             search_linkedin_profile W (name best_match) (title best_match)
               municipality_name state ;;
           Eff.ret (if truthy linkedin_url
                    then (set_linkedin_url best_match linkedin_url,
                          (score + 0.15)%float)
                    else (best_match, score))
         else Eff.ret (best_match, score)) ;;
      (* Cap at 1.0 *)
      let best_match :=
        set_confidence_score (fst scored) (py_min 1.0%float (snd scored)) in
      Eff.ret (final_results ++ [best_match])
  end.

Definition score_and_deduplicate (officials_list : list Official)
           (municipality_name state : string) : Eff.M (list Official) :=
  match officials_list with
  | [] => Eff.ret []
  | _ :: _ =>
      let officials_by_key := group_officials officials_list in
      final_results <-
        Eff.for_each officials_by_key
          (resolve_group municipality_name state) [] ;;
      Eff.ret (sort_by_score final_results)
  end.

End Pipeline.

End Legacy.

(* ================================================================== *)
(** * utils.make_request: the retry loop *)
(* ================================================================== *)

Module Retry.
Import Utils.

(** What one call of [requests.request] does: it returns a response, or
    raises [SSLError], or raises another [RequestException] (a timeout
    among them). *)
Inductive outcome : Type :=
| Responded (r : response)
| SSLError
| RequestError.

(** What [make_request] does that can be seen from outside. *)
Inductive event : Type :=
| Request (verify : bool)
| Sleep.

Definition MAX_RETRIES : nat := 3.

Section Network.

(** [network n verify]: the outcome of the [n]-th call of
    [requests.request] for the URL, made with [verify=verify]. *)
Variable network : nat -> bool -> outcome.

(** [make_request(url, method, retry_count, verify_ssl)], after [calls]
    earlier calls of [requests.request]: the value returned and what was
    done, in order. *)
Equations? make_request (calls retry_count : nat) (verify_ssl : bool)
  : option response * list event
  by wf (2 * (MAX_RETRIES - retry_count) + (if verify_ssl then 1 else 0)) lt :=
  make_request calls retry_count verify_ssl with network calls verify_ssl => {
    | Responded response := (Some response, [Request verify_ssl]);
    | SSLError with verify_ssl => {
        | true :=
            (* retry without SSL verification *)
            let later := make_request (S calls) retry_count false in
            (fst later, Request true :: snd later);
        | false with lt_dec retry_count MAX_RETRIES => {
            | left _ :=
                let later := make_request (S calls) (S retry_count) false in
                (fst later, Request false :: Sleep :: snd later);
            | right _ := (None, [Request false]) } };
    | RequestError with lt_dec retry_count MAX_RETRIES => {
        | left _ :=
            let later := make_request (S calls) (S retry_count) verify_ssl in
            (fst later, Request verify_ssl :: Sleep :: snd later);
        | right _ := (None, [Request verify_ssl]) } }.
Proof.
  all: unfold MAX_RETRIES in *.
  all: destruct retry_count as [|[|[|?]]]; try destruct verify_ssl; simpl; lia.
Qed.

End Network.

End Retry.

(* ================================================================== *)
(** * Vocabulary of the properties *)
(* ================================================================== *)

Import Str Utils Scraper.

(** ** Strings and phones *)

Fixpoint all_chars (p : ascii -> bool) (s : string) : bool :=
  match s with
  | EmptyString => true
  | String c s' => p c && all_chars p s'
  end.

(** The canonical form [(AAA) BBB-CCCC] of ten digits: those from position
    [i] on in [digits]. *)
Definition canonical_from (i : nat) (digits : string) : string :=
  ("(" ++ substring i 3 digits ++ ") " ++ substring (i + 3) 3 digits ++ "-"
       ++ substring (i + 6) 4 digits)%string.

(** A phone in canonical form when it formats, else as it is. *)
Definition canonical_phone (p : option string) : option string :=
  match p with
  | Some p' =>
      match validate_phone p' with
      | Some formatted => Some formatted
      | None => Some p'
      end
  | None => None
  end.

(** ** Signals and weights *)

(** The phone of a record formats: [validate_phone] returns a result. *)
Definition phone_formats (o : Official) : bool :=
  match phone o with
  | Some p => match validate_phone p with Some _ => true | None => false end
  | None => false
  end.

(** The five signals of a record and their weights, in the order in which
    the score adds them. *)
Definition signals (o : Official) : list (bool * float) :=
  [ (validate_official_name (name o), 0.4%float);
    (validate_official_title (title o), 0.2%float);
    (validate_email (email o), 0.2%float);
    (phone_formats o, 0.1%float);
    (truthy (linkedin_url o), 0.1%float) ].

(** Sum of the weights of the satisfied signals, added from the left. *)
Definition satisfied_weight (s : list (bool * float)) : float :=
  fold_left (fun (acc : float) (bw : bool * float) =>
               if fst bw then (acc + snd bw)%float else acc) s 0.0%float.

(** Sum of all the weights, added from the left. *)
Definition total_weight (s : list (bool * float)) : float :=
  fold_left (fun (acc : float) (bw : bool * float) => (acc + snd bw)%float)
            s 0.0%float.

(** The record with its phone in canonical form when it formats. *)
Definition with_formatted_phone (o : Official) : Official :=
  match phone o with
  | Some p =>
      match validate_phone p with
      | Some formatted => set_phone o (Some formatted)
      | None => o
      end
  | None => o
  end.

(** A candidate as [filter_officials] stamps it. *)
Definition stamped (o : Official) : Official :=
  set_confidence_score (snd (calculate_confidence_score o))
                       (fst (calculate_confidence_score o)).

(** A candidate without its incoming score. *)
Definition erase (o : Official) : Official := set_confidence_score o 0.0%float.

Definition erase_group (item : key * list Official) : key * list Official :=
  (fst item, map erase (snd item)).

(** ** Groups *)

(** The candidates that pass name and title validation. *)
Definition survivors (l : list Official) : list Official :=
  filter is_real_official l.

(** The surviving candidates with merge key [k], in encounter order. *)
Definition members (k : key) (l : list Official) : list Official :=
  filter (fun o => key_eqb (key_of o) k) (survivors l).

(** [officials_by_key.get(k, [])] *)
Fixpoint matches_of (k : key) (g : list (key * list Official)) : list Official :=
  match g with
  | [] => []
  | (k', ms) :: g' => if key_eqb k k' then ms else matches_of k g'
  end.

(** First-non-empty-wins: the current value when it is not empty, else the
    first non-empty value among the later ones, else the current value. *)
Definition fill (current : option string) (later : list (option string))
  : option string :=
  if truthy current then current
  else match find truthy later with
       | Some v => v
       | None => current
       end.

(** ** The resolution of one group, without its request log *)

(** The LinkedIn lookup of a merged record: only into an empty field, and
    only when a municipality and a state were given. *)
Definition enrich (W : World) (municipality_name state : string)
           (best : Official) : Official :=
  if negb (truthy (linkedin_url best))
     && nonempty municipality_name && nonempty state
  then
    let found :=
      Eff.value (search_linkedin_profile W (name best) (title best)
                   municipality_name state) in
    if truthy found then set_linkedin_url best found else best
  else best.

(** Scoring, stamping and phone formatting of a merged record. *)
Definition finish (best : Official) : Official :=
  let scored := calculate_confidence_score best in
  format_phone (set_confidence_score (snd scored) (fst scored)).

(** The output record of a group. *)
Definition resolve (W : World) (municipality_name state : string)
           (first : Official) (others : list Official) : Official :=
  finish (enrich W municipality_name state (merge_matches first others)).

Definition resolved (W : World) (municipality_name state : string)
           (item : key * list Official) : list Official :=
  match snd item with
  | [] => []
  | first :: others => [resolve W municipality_name state first others]
  end.

(** ** Probing *)

(** The response to [url] is reachable and passes [accept]. *)
Definition accepted (fetch : string -> option response)
           (accept : response -> bool) (url : string) : bool :=
  match fetch url with
  | Some r => accept r
  | None => false
  end.

(** The test of the pattern loop: status 200 and the classifier. *)
Definition confirms (municipality state : string) (r : response) : bool :=
  (status_code r =? 200) && is_likely_municipal_site (text r) municipality state.

(** The test of the known-URL loop: status 200. *)
Definition reachable (r : response) : bool := status_code r =? 200.

Definition is_des_moines (municipality state : string) : bool :=
  String.eqb (lower municipality) "des moines" && String.eqb (lower state) "ia".

(** ** Sample inputs *)

(** A world without network: every request fails and nothing is parsed. *)
Definition offline : World :=
  mkWorld (fun _ => None) (fun _ => None) (fun _ => []) (fun _ _ => [])
          (fun _ => "") (fun _ => []) (fun _ => None) (fun _ => []).

(** A record whose only satisfied signals are its name and its title. *)
Definition jane_clerk : Official :=
  mkOfficial "Jane Doe" "Clerk" None None None "https://city.gov/staff" 0.5%float.

Definition jane_email : Official :=
  mkOfficial "Jane Doe" "Clerk" (Some "jane@city.gov") None None
             "https://city.gov/staff" 0.5%float.

Definition jane_phone : Official :=
  mkOfficial "Jane Doe" "Clerk" None (Some "5155551234") None
             "https://city.gov/contact" 0.5%float.

Definition acme_vendor : Official :=
  mkOfficial "Acme Vendor Solutions" "City Clerk" (Some "sales@acme.com")
             (Some "5155550000") None "https://city.gov/vendors" 0.6%float.

(** A network on which only [https://www.dsm.city] answers, with a page
    that says nothing municipal. *)
Definition only_dsm_city (url : string) : option response :=
  if String.eqb url "https://www.dsm.city"
  then Some (mkResponse 200 "Welcome") else None.

(** A network on which the second generated URL for Ames, IA is the first
    municipal page. *)
Definition ames_network (url : string) : option response :=
  if String.eqb url "https://www.ame.gov"
  then Some (mkResponse 200 "Parked domain")
  else if String.eqb url "https://ame.gov"
  then Some (mkResponse 200 "City of Ames, IA - City Hall")
  else Some (mkResponse 404 "").

(** ** The retry loop *)

(** The [verify] flags of the calls made, in order. *)
Fixpoint flags (log : list Retry.event) : list bool :=
  match log with
  | [] => []
  | Retry.Request v :: log' => v :: flags log'
  | Retry.Sleep :: log' => flags log'
  end.

Fixpoint sleeps (log : list Retry.event) : nat :=
  match log with
  | [] => 0
  | Retry.Sleep :: log' => S (sleeps log')
  | Retry.Request _ :: log' => sleeps log'
  end.

(** The outcomes of the calls made with the flags [fl], the first of them
    being call number [calls]. *)
Fixpoint replay (network : nat -> bool -> Retry.outcome) (calls : nat)
         (fl : list bool) : list Retry.outcome :=
  match fl with
  | [] => []
  | v :: fl' => network calls v :: replay network (S calls) fl'
  end.

Definition failed (o : Retry.outcome) : bool :=
  match o with
  | Retry.Responded _ => false
  | _ => true
  end.

(** ** Further vocabulary *)

(** Some character of [s] satisfies [p]. *)
Fixpoint some_char (p : ascii -> bool) (s : string) : bool :=
  match s with
  | EmptyString => false
  | String c s' => p c || some_char p s'
  end.

(** No record is followed by one with a higher score. *)
Fixpoint descending (l : list Official) : Prop :=
  match l with
  | [] => True
  | x :: rest =>
      match rest with
      | [] => True
      | y :: _ => (confidence_score x <? confidence_score y)%float = false
      end /\ descending rest
  end.

(** The records of [l] whose score compares equal to [v], in order. *)
Definition scoring (v : float) (l : list Official) : list Official :=
  filter (fun o => (confidence_score o =? v)%float) l.

(** The scores [calculate_confidence_score] can return. *)
Definition possible_scores : list float :=
  let bools := [true; false] in
  flat_map (fun n => flat_map (fun t => flat_map (fun e => flat_map (fun p =>
    map (fun l =>
           (satisfied_weight
              [(n, 0.4%float); (t, 0.2%float); (e, 0.2%float);
               (p, 0.1%float); (l, 0.1%float)] / 1.0)%float)
        bools) bools) bools) bools) bools.

(** The score stamped on the record is one a scoring can return. *)
Definition scored (o : Official) : Prop := In (confidence_score o) possible_scores.

(** Every class of [r] lies within the set [P] of characters. *)
Fixpoint classes_within (P : ascii -> bool) (r : Re.regex) : Prop :=
  match r with
  | Re.Never => True
  | Re.Empty => True
  | Re.Class p => forall c, p c = true -> P c = true
  | Re.Seq r1 r2 => classes_within P r1 /\ classes_within P r2
  | Re.Or r1 r2 => classes_within P r1 /\ classes_within P r2
  | Re.Star r1 => classes_within P r1
  end.

(** The characters of an email address: letters, digits and [._%+-@]. *)
Definition email_char (c : ascii) : bool :=
  is_alpha c || is_digit c || contains (String c "") "._%+-@".

Definition newline : string := String "010" "".

(** The query of the LinkedIn lookup for a record. *)
Definition linkedin_query (municipality_name state : string) (best : Official)
  : string :=
  (name best ++ " " ++ title best ++ " " ++ municipality_name ++ " " ++ state
        ++ " linkedin")%string.

(** The request the resolution of a group issues: the LinkedIn lookup,
    when the merged record has no LinkedIn URL and both a municipality and
    a state were given. *)
Definition lookup_requests (municipality_name state : string)
           (item : key * list Official) : list string :=
  match snd item with
  | [] => []
  | first :: others =>
      let best := merge_matches first others in
      if negb (truthy (linkedin_url best))
         && nonempty municipality_name && nonempty state
      then [google_search_url (linkedin_query municipality_name state best)]
      else []
  end.

(** The URLs [find_contact_pages] probes on a site. *)
Definition contact_urls (base_url : string) : list string :=
  map (fun path => (rstrip "/" base_url ++ path)%string) contact_paths.

(** A candidate as the extractor hands it over: a valid name and title,
    an email that is empty or valid, a phone that is empty or in canonical
    form. *)
Definition sanitised (v : Official) : Prop :=
  is_real_official v = true /\
  (truthy (email v) = true -> validate_email (email v) = true) /\
  (truthy (phone v) = true ->
   exists formatted, phone v = Some formatted
                     /\ validate_phone formatted = Some formatted).

(** The length of the shortest string a pattern matches. *)
Fixpoint min_length (r : Re.regex) : nat :=
  match r with
  | Re.Never => 0
  | Re.Empty => 0
  | Re.Class _ => 1
  | Re.Seq r1 r2 => min_length r1 + min_length r2
  | Re.Or r1 r2 => Nat.min (min_length r1) (min_length r2)
  | Re.Star _ => 0
  end.

Definition not_space (c : ascii) : bool := negb (is_space c).

(** A run of characters [str.split] keeps together. *)
Definition is_word (w : string) : Prop :=
  w <> "" /\ all_chars not_space w = true.

(** ** Further sample candidates *)

Definition bob_mayor : Official :=
  mkOfficial "Bob Smith" "Mayor" (Some "bob@city.gov") None None
             "https://city.gov/staff" 0.5%float.

(** Jane Doe, Clerk again, in capitals and with a phone. *)
Definition jane_upper_phone : Official :=
  mkOfficial "JANE DOE" "CLERK" None (Some "5155551234") None
             "https://city.gov/contact" 0.5%float.

Definition ann_clerk : Official :=
  mkOfficial "Ann Lee" "Clerk" None None None "https://city.gov/staff" 0.5%float.

(** ** Order of first occurrence *)

(** The keys of [ks] without repetition, each at the place where it is
    first met. *)
Fixpoint first_met (ks : list key) : list key :=
  match ks with
  | [] => []
  | k :: ks' => k :: filter (fun k' => negb (key_eqb k k')) (first_met ks')
  end.

(** ** The earlier copy's score *)

(** What the earlier copy makes of the incoming score of a single
    candidate, before the cap: the incoming score plus the bonuses for an
    email, a phone and the source. *)
Definition legacy_seed_score (first : Official) : float :=
  let score := confidence_score first in
  let score := if truthy (email first) then (score + 0.2)%float else score in
  let score := if truthy (phone first) then (score + 0.1)%float else score in
  if negb (String.eqb (source first) "Google Search") then
    if contains ".gov" (source first)
    then (score + 0.3)%float else (score + 0.1)%float
  else score.

(** ** Probes and HTTP requests *)

(** [make_request(url)] with its retries, on a network that gives the
    outcome of each attempt on each URL. *)
Definition retrying (network : string -> nat -> bool -> Retry.outcome)
           (url : string) : option response :=
  fst (Retry.make_request (network url) 0 0 true).

(** The number of calls of [requests.request] one call of
    [make_request(url)] makes. *)
Definition http_calls (network : string -> nat -> bool -> Retry.outcome)
           (url : string) : nat :=
  List.length (flags (snd (Retry.make_request (network url) 0 0 true))).

(** The number of calls of [requests.request] behind a list of probes. *)
Definition total_http_calls (network : string -> nat -> bool -> Retry.outcome)
           (probes : list string) : nat :=
  list_sum (map (http_calls network) probes).

(** The world [W] with [make_request] running on [network]. *)
Definition on_network (network : string -> nat -> bool -> Retry.outcome)
           (W : World) : World :=
  mkWorld (retrying network) (http_get W) (result_snippets W)
          (contact_links W) (page_text W) (contact_sections W)
          (linkedin_link W) (pattern_candidates W).

(* ================================================================== *)
(** * Properties *)
(* ================================================================== *)

(** ** Strings *)

Lemma keep_all_chars (p : ascii -> bool) (s : string) :
  all_chars p (keep p s) = true.
Proof.
  induction s as [|c s IH]; simpl; [reflexivity|].
  destruct (p c) eqn:E; simpl; [rewrite E|]; exact IH.
Qed.

(** ** The matcher computes the language of a regular expression *)

Lemma append_cons_inv (c : ascii) (s s1 s2 : string) :
  (s1 ++ s2)%string = String c s ->
  (s1 = "" /\ s2 = String c s) \/
  (exists s1', s1 = String c s1' /\ s = (s1' ++ s2)%string).
Proof.
  destruct s1 as [|a s1]; cbn [append]; intros H.
  - left. split; [reflexivity | exact H].
  - right. injection H as -> <-. exists s1. split; reflexivity.
Qed.

Lemma append_empty_inv (s1 s2 : string) :
  (s1 ++ s2)%string = "" -> s1 = "" /\ s2 = "".
Proof. destruct s1; cbn [append]; [auto | discriminate]. Qed.

Ltac invert_lang H := inversion H; subst; clear H.

Ltac split_append :=
  match goal with
  | E : (?s1 ++ ?s2)%string = "" |- _ =>
      apply append_empty_inv in E; destruct E as [-> ->]
  | E : (?s1 ++ ?s2)%string = String _ _ |- _ =>
      let s1' := fresh "s1'" in
      apply append_cons_inv in E; destruct E as [[-> ->]|(s1' & -> & ->)]
  end.

Lemma nullable_lang (r : Re.regex) : Re.nullable r = true <-> Re.lang r "".
Proof.
  induction r as [| |p|r1 IH1 r2 IH2|r1 IH1 r2 IH2|r IH]; cbn [Re.nullable].
  - split; [discriminate | intros H; inversion H].
  - split; [constructor | reflexivity].
  - split; [discriminate | intros H; inversion H].
  - rewrite andb_true_iff, IH1, IH2. split.
    + intros [H1 H2]. change "" with ("" ++ "")%string.
      constructor; assumption.
    + intros H. invert_lang H. split_append. auto.
  - rewrite orb_true_iff, IH1, IH2. split.
    + intros [H|H]; [apply Re.lang_or_l | apply Re.lang_or_r]; exact H.
    + intros H. invert_lang H; auto.
  - split; [constructor | reflexivity].
Qed.

Lemma lang_star_cons_inv (r : Re.regex) (c : ascii) (s : string) :
  Re.lang (Re.Star r) (String c s) ->
  exists s1 s2, s = (s1 ++ s2)%string /\ Re.lang r (String c s1)
                /\ Re.lang (Re.Star r) s2.
Proof.
  intros H.
  remember (Re.Star r) as r' eqn:Er. remember (String c s) as t eqn:Et.
  revert s Et.
  induction H as [| | | | | |r0 s1 s2 H1 _ H2 IH2]; intros tail Et;
    try discriminate Er; try discriminate Et.
  injection Er as ->.
  split_append.
  - apply IH2; reflexivity.
  - exists s1', s2. auto.
Qed.

Lemma lang_cons_seq (r1 r2 : Re.regex) (c : ascii) (s1 s2 : string) :
  Re.lang r1 (String c s1) -> Re.lang r2 s2 ->
  Re.lang (Re.Seq r1 r2) (String c (s1 ++ s2)).
Proof.
  intros H1 H2.
  change (String c (s1 ++ s2)) with (String c s1 ++ s2)%string.
  constructor; assumption.
Qed.

Lemma deriv_lang (r : Re.regex) (c : ascii) :
  forall s, Re.lang (Re.deriv c r) s <-> Re.lang r (String c s).
Proof.
  induction r as [| |p|r1 IH1 r2 IH2|r1 IH1 r2 IH2|r IH]; intros s;
    cbn [Re.deriv].
  - split; intros H; inversion H.
  - split; intros H; inversion H.
  - destruct (p c) eqn:Ep; split; intros H; invert_lang H.
    + constructor. exact Ep.
    + constructor.
    + congruence.
  - assert (Hseq : Re.lang (Re.Seq (Re.deriv c r1) r2) s ->
                   Re.lang (Re.Seq r1 r2) (String c s)).
    { intros H. invert_lang H. apply lang_cons_seq; [apply IH1|]; assumption. }
    destruct (Re.nullable r1) eqn:En; split.
    + intros H. invert_lang H.
      * apply Hseq. assumption.
      * apply nullable_lang in En.
        change (String c s) with ("" ++ String c s)%string.
        constructor; [|apply IH2]; assumption.
    + intros H. invert_lang H. split_append.
      * apply Re.lang_or_r. apply IH2. assumption.
      * apply Re.lang_or_l. constructor; [apply IH1|]; assumption.
    + exact Hseq.
    + intros H. invert_lang H. split_append.
      * match goal with H1 : Re.lang r1 "" |- _ => apply nullable_lang in H1 end.
        congruence.
      * constructor; [apply IH1|]; assumption.
  - split; intros H; invert_lang H.
    + apply Re.lang_or_l. apply IH1. assumption.
    + apply Re.lang_or_r. apply IH2. assumption.
    + apply Re.lang_or_l. apply IH1. assumption.
    + apply Re.lang_or_r. apply IH2. assumption.
  - split.
    + intros H. invert_lang H.
      match goal with
      | |- Re.lang _ (String c (?a ++ ?b)) =>
          change (String c (a ++ b)) with (String c a ++ b)%string
      end.
      constructor; [apply IH|]; assumption.
    + intros H. apply lang_star_cons_inv in H.
      destruct H as (s1 & s2 & -> & H1 & H2).
      constructor; [apply IH|]; assumption.
Qed.

(** [fullmatch] decides membership in the language. *)
Lemma fullmatch_lang (s : string) :
  forall r, Re.fullmatch r s = true <-> Re.lang r s.
Proof.
  induction s as [|c s IH]; intros r; cbn [Re.fullmatch].
  - apply nullable_lang.
  - rewrite IH. apply deriv_lang.
Qed.

Lemma chop_newline_spec (s t : string) :
  Re.chop_newline s = Some t <-> s = (t ++ String "010" "")%string.
Proof.
  revert t. induction s as [|c s IH]; intros t.
  - cbn [Re.chop_newline]. split; [discriminate|].
    destruct t; discriminate.
  - destruct s as [|c' s'].
    + cbn [Re.chop_newline]. destruct (Ascii.eqb c "010") eqn:E.
      * apply Ascii.eqb_eq in E. subst c. split.
        -- intros H. injection H as <-. reflexivity.
        -- intros H. destruct t as [|a t]; [reflexivity|].
           cbn [append] in H. injection H as _ H. destruct t; discriminate H.
      * split; [discriminate|]. intros H.
        destruct t as [|a t]; cbn [append] in H.
        -- injection H as ->. rewrite Ascii.eqb_refl in E. discriminate E.
        -- injection H as _ H. destruct t; discriminate H.
    + change (Re.chop_newline (String c (String c' s')))
        with (match Re.chop_newline (String c' s') with
              | Some t0 => Some (String c t0)
              | None => None
              end).
      destruct (Re.chop_newline (String c' s')) as [t0|] eqn:E.
      * pose proof (proj1 (IH t0) eq_refl) as H0. split.
        -- intros H. injection H as <-. cbn [append]. rewrite H0. reflexivity.
        -- intros H. destruct t as [|a t]; cbn [append] in H; [discriminate H|].
           injection H as <- H.
           assert (Ht : Some t0 = Some t) by (apply IH; exact H).
           injection Ht as ->. reflexivity.
      * split; [discriminate|]. intros H.
        destruct t as [|a t]; cbn [append] in H; [discriminate H|].
        injection H as _ H. apply IH in H. discriminate H.
Qed.

(** [match_anchored]: the string is in the language, or it is a string of
    the language followed by one newline. *)
Lemma match_anchored_lang (r : Re.regex) (s : string) :
  Re.match_anchored r s = true <->
  Re.lang r s \/ exists t, s = (t ++ String "010" "")%string /\ Re.lang r t.
Proof.
  unfold Re.match_anchored. rewrite orb_true_iff, fullmatch_lang.
  split.
  - intros [H|H]; [left; exact H|].
    destruct (Re.chop_newline s) as [t|] eqn:E; [|discriminate H].
    right. exists t. split; [apply chop_newline_spec; exact E|].
    apply fullmatch_lang. exact H.
  - intros [H|(t & Hs & Ht)]; [left; exact H|].
    right. apply chop_newline_spec in Hs. rewrite Hs.
    apply fullmatch_lang. exact Ht.
Qed.

(** ** [validate_phone] *)

Lemma validate_phone_unfold (phone : string) :
  validate_phone phone =
  let digits := digits_of phone in
  if String.length digits =? 10 then Some (canonical_from 0 digits)
  else if (String.length digits =? 11) && startswith "1" digits
       then Some (canonical_from 1 digits)
       else None.
Proof.
  unfold validate_phone. destruct phone as [|c phone]; reflexivity.
Qed.

Lemma ten_digits_split (d : string) :
  String.length d = 10 ->
  String.length (substring 0 3 d) = 3 /\
  String.length (substring 3 3 d) = 3 /\
  String.length (substring 6 4 d) = 4 /\
  d = (substring 0 3 d ++ substring 3 3 d ++ substring 6 4 d)%string.
Proof.
  intros H.
  do 10 (destruct d as [|? d]; [discriminate H|]).
  destruct d; [|discriminate H].
  repeat split.
Qed.

Lemma eleven_digits_split (d : string) :
  String.length d = 11 ->
  startswith "1" d = true ->
  String.length (substring 1 3 d) = 3 /\
  String.length (substring 4 3 d) = 3 /\
  String.length (substring 7 4 d) = 4 /\
  d = ("1" ++ substring 1 3 d ++ substring 4 3 d ++ substring 7 4 d)%string.
Proof.
  intros H H1.
  do 11 (destruct d as [|? d]; [discriminate H|]).
  destruct d; [|discriminate H].
  cbn [startswith] in H1. rewrite andb_true_r in H1.
  apply Ascii.eqb_eq in H1. subst.
  repeat split.
Qed.

(** C3.  [validate_phone] keeps the digits of its argument.  When exactly
    ten remain they are returned as [(AAA) BBB-CCCC]; when exactly eleven
    remain and the first is [1], the other ten are returned in that form;
    for every other number of digits, and for eleven digits that do not
    start with [1], the result is [None]. *)
Theorem validate_phone_spec (phone : string) :
  let digits := keep is_digit phone in
  (String.length digits = 10 ->
   exists area exchange line : string,
     String.length area = 3 /\ String.length exchange = 3 /\
     String.length line = 4 /\
     digits = (area ++ exchange ++ line)%string /\
     validate_phone phone =
       Some ("(" ++ area ++ ") " ++ exchange ++ "-" ++ line)%string)
  /\
  (String.length digits = 11 -> startswith "1" digits = true ->
   exists area exchange line : string,
     String.length area = 3 /\ String.length exchange = 3 /\
     String.length line = 4 /\
     digits = ("1" ++ area ++ exchange ++ line)%string /\
     validate_phone phone =
       Some ("(" ++ area ++ ") " ++ exchange ++ "-" ++ line)%string)
  /\
  (String.length digits <> 10 -> String.length digits <> 11 ->
   validate_phone phone = None)
  /\
  (String.length digits = 11 -> startswith "1" digits = false ->
   validate_phone phone = None).
Proof.
  intros digits. rewrite validate_phone_unfold. fold digits.
  change (digits_of phone) with digits. cbv zeta.
  split; [|split; [|split]].
  - intros H. destruct (ten_digits_split digits H) as (Ha & He & Hl & Hd).
    exists (substring 0 3 digits), (substring 3 3 digits), (substring 6 4 digits).
    rewrite H. simpl. repeat split; assumption.
  - intros H H1. destruct (eleven_digits_split digits H H1) as (Ha & He & Hl & Hd).
    exists (substring 1 3 digits), (substring 4 3 digits), (substring 7 4 digits).
    rewrite H, H1. simpl. repeat split; assumption.
  - intros H10 H11.
    apply Nat.eqb_neq in H10. apply Nat.eqb_neq in H11.
    rewrite H10, H11. reflexivity.
  - intros H H1. rewrite H, H1. reflexivity.
Qed.

Lemma validate_phone_spec_witness :
  validate_phone "+1 (515) 555-1234" = Some "(515) 555-1234" /\
  validate_phone "515.555.1234" = Some "(515) 555-1234" /\
  validate_phone "555-1234" = None /\
  validate_phone "2-515-555-1234" = None.
Proof.
  split; [|split; [|split]].
  - destruct (validate_phone_spec "+1 (515) 555-1234") as (_ & H & _ & _).
    destruct (H eq_refl eq_refl) as (a & e & l & Ha & He & Hl & Hd & Hv).
    rewrite Hv. vm_compute in Hd.
    do 3 (destruct a as [|? a]; [discriminate Ha|]).
    destruct a; [|discriminate Ha].
    do 3 (destruct e as [|? e]; [discriminate He|]).
    destruct e; [|discriminate He].
    simpl in Hd. inversion Hd; subst. reflexivity.
  - destruct (validate_phone_spec "515.555.1234") as (H & _ & _ & _).
    destruct (H eq_refl) as (a & e & l & Ha & He & Hl & Hd & Hv).
    rewrite Hv. vm_compute in Hd.
    do 3 (destruct a as [|? a]; [discriminate Ha|]).
    destruct a; [|discriminate Ha].
    do 3 (destruct e as [|? e]; [discriminate He|]).
    destruct e; [|discriminate He].
    simpl in Hd. inversion Hd; subst. reflexivity.
  - destruct (validate_phone_spec "555-1234") as (_ & _ & H & _).
    apply H; vm_compute; discriminate.
  - destruct (validate_phone_spec "2-515-555-1234") as (_ & _ & _ & H).
    apply H; reflexivity.
Defined.

Lemma canonical_nonempty (i : nat) (d : string) :
  nonempty (canonical_from i d) = true.
Proof. reflexivity. Qed.

Lemma validate_phone_nonempty (phone formatted : string) :
  validate_phone phone = Some formatted -> nonempty formatted = true.
Proof.
  rewrite validate_phone_unfold. cbv zeta.
  destruct (String.length (digits_of phone) =? 10).
  - intros H. injection H as <-. apply canonical_nonempty.
  - destruct ((String.length (digits_of phone) =? 11)
              && startswith "1" (digits_of phone)).
    + intros H. injection H as <-. apply canonical_nonempty.
    + discriminate.
Qed.

Ltac digit_facts H :=
  cbn [all_chars] in H;
  repeat (let Hc := fresh "Hc" in
          apply andb_prop in H; destruct H as [Hc H]).

(** The digits of a canonical phone number are the ten it was built from. *)
Lemma validate_phone_canonical (i : nat) (d : string) :
  all_chars is_digit d = true ->
  String.length d = i + 10 ->
  validate_phone (canonical_from i d) = Some (canonical_from i d).
Proof.
  intros Hall Hlen.
  assert (Hd : digits_of (canonical_from i d) = substring i 10 d
               /\ String.length (substring i 10 d) = 10
               /\ canonical_from 0 (substring i 10 d) = canonical_from i d).
  { revert d Hall Hlen. induction i as [|i IH]; intros d Hall Hlen.
    - do 10 (destruct d as [|? d]; [discriminate Hlen|]).
      destruct d; [|discriminate Hlen].
      digit_facts Hall.
      unfold digits_of, canonical_from.
      cbn [substring append Nat.add keep].
      rewrite Hc, Hc0, Hc1, Hc2, Hc3, Hc4, Hc5, Hc6, Hc7, Hc8.
      repeat split.
    - destruct d as [|c d]; [discriminate Hlen|].
      cbn [all_chars] in Hall. apply andb_prop in Hall. destruct Hall as [_ Hall].
      simpl in Hlen. injection Hlen as Hlen.
      exact (IH d Hall Hlen). }
  destruct Hd as (Hd & Hl & Hc).
  rewrite validate_phone_unfold. cbv zeta.
  rewrite Hd, Hl. simpl. rewrite Hc. reflexivity.
Qed.

Lemma validate_phone_idempotent (phone formatted : string) :
  validate_phone phone = Some formatted ->
  validate_phone formatted = Some formatted.
Proof.
  rewrite validate_phone_unfold. cbv zeta.
  pose proof (keep_all_chars is_digit phone) as Hall.
  fold (digits_of phone) in Hall.
  destruct (String.length (digits_of phone) =? 10) eqn:E10.
  - intros H. injection H as <-.
    apply Nat.eqb_eq in E10.
    apply validate_phone_canonical; assumption.
  - destruct (String.length (digits_of phone) =? 11) eqn:E11; cbn [andb].
    + destruct (startswith "1" (digits_of phone)); [|discriminate].
      intros H. injection H as <-.
      apply Nat.eqb_eq in E11.
      apply validate_phone_canonical; assumption.
    + discriminate.
Qed.

(** ** Confidence score *)

Local Open Scope float_scope.

Lemma calculate_confidence_score_eq (o : Official) :
  calculate_confidence_score o =
  (satisfied_weight (signals o) / total_weight (signals o),
   with_formatted_phone o).
Proof.
  unfold calculate_confidence_score, signals, phone_formats, with_formatted_phone.
  destruct (phone o) as [p|] eqn:Ep.
  - destruct (validate_phone p) as [f|] eqn:Ev.
    + assert (Hp : truthy (Some p) = true).
      { destruct p; [discriminate Ev | reflexivity]. }
      rewrite Hp, (validate_phone_nonempty _ Ev).
      cbv beta iota zeta. cbn [linkedin_url set_phone].
      destruct (validate_official_name (name o)),
               (validate_official_title (title o)),
               (validate_email (email o)),
               (truthy (linkedin_url o)); reflexivity.
    + destruct (truthy (Some p));
      destruct (validate_official_name (name o)),
               (validate_official_title (title o)),
               (validate_email (email o)),
               (truthy (linkedin_url o)); reflexivity.
  - cbn [truthy].
    destruct (validate_official_name (name o)),
             (validate_official_title (title o)),
             (validate_email (email o)),
             (truthy (linkedin_url o)); reflexivity.
Qed.

Lemma signals_formatted (o : Official) :
  signals (with_formatted_phone o) = signals o.
Proof.
  unfold signals, phone_formats, with_formatted_phone.
  destruct (phone o) as [p|] eqn:Ep; [|rewrite Ep; reflexivity].
  destruct (validate_phone p) as [f|] eqn:Ev.
  - cbn [name title email phone linkedin_url set_phone].
    rewrite (validate_phone_idempotent _ Ev). reflexivity.
  - rewrite Ep, Ev. reflexivity.
Qed.

Lemma with_formatted_phone_idempotent (o : Official) :
  with_formatted_phone (with_formatted_phone o) = with_formatted_phone o.
Proof.
  unfold with_formatted_phone.
  destruct (phone o) as [p|] eqn:Ep; [|rewrite Ep; reflexivity].
  destruct (validate_phone p) as [f|] eqn:Ev.
  - cbn [phone set_phone]. rewrite (validate_phone_idempotent _ Ev).
    reflexivity.
  - rewrite Ep, Ev. reflexivity.
Qed.

(** C1 (as stated, refuted).  The record [jane_clerk] satisfies the name
    and the title signals and no other, and its score is not the double
    [0.6]: Python's [==] between the two is false. *)
Lemma name_and_title_score_is_not_0_6 :
  map fst (signals jane_clerk) = [true; true; false; false; false] /\
  (fst (calculate_confidence_score jane_clerk) =? 0.6) = false /\
  fst (calculate_confidence_score jane_clerk) <> 0.6.
Proof.
  split; [reflexivity|]. split; [reflexivity|].
  intros H.
  apply (f_equal (fun v => v =? 0.6)) in H.
  vm_compute in H. discriminate H.
Qed.

(** C1 (amended).  The score of a record is the sum of the weights of its
    satisfied signals -- name 0.4, title 0.2, email 0.2, phone 0.1,
    LinkedIn 0.1, added in this order in double precision -- divided by
    the total weight, which is exactly 1.0.  The score equals 1.0 exactly
    when the five signals pass.  A record whose only satisfied signals are
    the name and the title scores [0.4 + 0.2], the double
    0.6000000000000001: one unit in the last place above the double 0.6,
    so it reaches a threshold of 0.6 without being equal to it. *)
Theorem confidence_score_weighted_sum (o : Official) :
  let score := fst (calculate_confidence_score o) in
  total_weight (signals o) = 1.0 /\
  score = satisfied_weight (signals o) / 1.0 /\
  (score =? 1.0) = forallb fst (signals o) /\
  (map fst (signals o) = [true; true; false; false; false] ->
   score = 0.4 + 0.2 /\ score = 0.6000000000000001 /\
   (0.6 <=? score) = true /\ (score =? 0.6) = false).
Proof.
  cbv zeta. rewrite calculate_confidence_score_eq. cbn [fst].
  split; [reflexivity|]. split; [reflexivity|]. split.
  - unfold signals.
    destruct (validate_official_name (name o)),
             (validate_official_title (title o)),
             (validate_email (email o)),
             (phone_formats o),
             (truthy (linkedin_url o)); reflexivity.
  - unfold signals. cbn [map fst].
    intros H. injection H as -> -> -> -> ->.
    repeat split.
Qed.

Lemma confidence_score_weighted_sum_witness :
  fst (calculate_confidence_score jane_clerk) = 0.6000000000000001 /\
  (0.6 <=? fst (calculate_confidence_score jane_clerk)) = true.
Proof.
  destruct (confidence_score_weighted_sum jane_clerk) as (_ & _ & _ & H).
  destruct (H eq_refl) as (_ & H1 & H2 & _).
  split; [exact H1 | exact H2].
Defined.

(** C8.  Scoring is idempotent: scoring the record that a first scoring
    leaves behind (its phone rewritten when it formats) returns the same
    score and changes nothing more. *)
Theorem calculate_confidence_score_idempotent (o : Official) :
  let first := calculate_confidence_score o in
  calculate_confidence_score (snd first) = first.
Proof.
  cbv zeta. rewrite !calculate_confidence_score_eq. cbn [snd].
  rewrite signals_formatted, with_formatted_phone_idempotent. reflexivity.
Qed.

(** C10.  Scoring changes no field but the phone; the phone becomes the
    result of [validate_phone] when there is one, and is otherwise left as
    it was. *)
Theorem calculate_confidence_score_frame (o : Official) :
  let o' := snd (calculate_confidence_score o) in
  name o' = name o /\ title o' = title o /\ email o' = email o /\
  linkedin_url o' = linkedin_url o /\ source o' = source o /\
  confidence_score o' = confidence_score o /\
  phone o' =
    match phone o with
    | Some p =>
        match validate_phone p with
        | Some formatted => Some formatted
        | None => Some p
        end
    | None => None
    end.
Proof.
  cbv zeta. rewrite calculate_confidence_score_eq. cbn [snd].
  unfold with_formatted_phone.
  destruct (phone o) as [p|] eqn:Ep.
  - destruct (validate_phone p) as [f|] eqn:Ev; cbn; rewrite ?Ep; repeat split.
  - rewrite Ep. repeat split.
Qed.

Local Close Scope float_scope.

(** ** The request log *)

Lemma value_bind (A B : Type) (m : Eff.M A) (f : A -> Eff.M B) :
  Eff.value (Eff.bind m f) = Eff.value (f (Eff.value m)).
Proof.
  unfold Eff.value, Eff.bind. destruct m as [a w]. cbn [fst].
  destruct (f a) as [b w']. reflexivity.
Qed.

Lemma requests_bind (A B : Type) (m : Eff.M A) (f : A -> Eff.M B) :
  Eff.requests (Eff.bind m f) =
  Eff.requests m ++ Eff.requests (f (Eff.value m)).
Proof.
  unfold Eff.requests, Eff.value, Eff.bind. destruct m as [a w]. cbn [fst snd].
  destruct (f a) as [b w']. reflexivity.
Qed.

Lemma for_each_map (A B S : Type) (g : A -> B) (body : S -> B -> Eff.M S)
      (xs : list A) :
  forall acc,
    Eff.for_each (map g xs) body acc =
    Eff.for_each xs (fun acc x => body acc (g x)) acc.
Proof.
  induction xs as [|x xs IH]; intros acc; cbn [Eff.for_each map].
  - reflexivity.
  - unfold Eff.bind. destruct (body acc (g x)) as [a w].
    rewrite IH. reflexivity.
Qed.

(** ** Grouping by merge key *)

Lemma key_eqb_eq (a b : key) : key_eqb a b = true <-> a = b.
Proof.
  destruct a as [a1 a2], b as [b1 b2]. unfold key_eqb. cbn [fst snd].
  rewrite andb_true_iff, !String.eqb_eq.
  split; [intros [-> ->]; reflexivity | intros H; injection H; auto].
Qed.

Lemma key_eqb_refl (a : key) : key_eqb a a = true.
Proof. apply key_eqb_eq. reflexivity. Qed.

Lemma key_eqb_neq (a b : key) : key_eqb a b = false <-> a <> b.
Proof.
  split.
  - intros H E. apply key_eqb_eq in E. congruence.
  - intros H. destruct (key_eqb a b) eqn:E; [|reflexivity].
    apply key_eqb_eq in E. contradiction.
Qed.

Lemma matches_of_group_add (k' k : key) (o : Official)
      (g : list (key * list Official)) :
  matches_of k' (group_add k o g) =
  if key_eqb k' k then matches_of k g ++ [o] else matches_of k' g.
Proof.
  induction g as [|[k0 ms] g IH]; cbn [group_add matches_of].
  - destruct (key_eqb k' k); reflexivity.
  - destruct (key_eqb k k0) eqn:E0; cbn [matches_of].
    + apply key_eqb_eq in E0. subst k0.
      destruct (key_eqb k' k); reflexivity.
    + rewrite IH. destruct (key_eqb k' k) eqn:E.
      * apply key_eqb_eq in E. subst k'. rewrite E0. reflexivity.
      * reflexivity.
Qed.

Lemma keys_group_add (k' k : key) (o : Official)
      (g : list (key * list Official)) :
  In k' (map fst (group_add k o g)) <-> k' = k \/ In k' (map fst g).
Proof.
  induction g as [|[k0 ms] g IH]; cbn [group_add map fst In].
  - intuition congruence.
  - destruct (key_eqb k k0) eqn:E0; cbn [map fst In].
    + apply key_eqb_eq in E0. subst k0. intuition congruence.
    + rewrite IH. intuition congruence.
Qed.

Lemma NoDup_group_add (k : key) (o : Official) (g : list (key * list Official)) :
  NoDup (map fst g) -> NoDup (map fst (group_add k o g)).
Proof.
  induction g as [|[k0 ms] g IH]; cbn [group_add map fst]; intros H.
  - constructor; [intros [] | constructor].
  - inversion H as [|? ? Hnotin Hnd]; subst.
    destruct (key_eqb k k0) eqn:E0; cbn [map fst].
    + constructor; assumption.
    + constructor; [|apply IH; assumption].
      rewrite keys_group_add. intros [->|Hin]; [|contradiction].
      rewrite key_eqb_refl in E0. discriminate.
Qed.

Lemma group_officials_snoc (l : list Official) (o : Official) :
  group_officials (l ++ [o]) =
  if is_real_official o then group_add (key_of o) o (group_officials l)
  else group_officials l.
Proof.
  unfold group_officials. rewrite fold_left_app. cbn [fold_left].
  unfold is_real_official.
  destruct (validate_official_name (name o)), (validate_official_title (title o));
    reflexivity.
Qed.

Lemma members_snoc (k : key) (l : list Official) (o : Official) :
  members k (l ++ [o]) =
  members k l ++
  (if is_real_official o && key_eqb (key_of o) k then [o] else []).
Proof.
  unfold members, survivors. rewrite filter_app. cbn [filter].
  destruct (is_real_official o); cbn [andb].
  - rewrite filter_app. cbn [filter].
    destruct (key_eqb (key_of o) k); reflexivity.
  - rewrite !app_nil_r. reflexivity.
Qed.

Lemma survivors_snoc (l : list Official) (o : Official) :
  survivors (l ++ [o]) = survivors l ++ (if is_real_official o then [o] else []).
Proof. unfold survivors. rewrite filter_app. reflexivity. Qed.

(** The dictionary built by the grouping loop: its keys are distinct, they
    are the keys of the surviving candidates, and under each key lie the
    surviving candidates with that key, in encounter order. *)
Lemma group_officials_spec (l : list Official) :
  NoDup (map fst (group_officials l)) /\
  (forall k, matches_of k (group_officials l) = members k l) /\
  (forall k, In k (map fst (group_officials l)) <->
             In k (map key_of (survivors l))).
Proof.
  induction l as [|o l IH] using rev_ind.
  - split; [constructor|]. split; [reflexivity|]. intros k. reflexivity.
  - destruct IH as (Hnd & Hm & Hk).
    rewrite group_officials_snoc.
    split; [|split].
    + destruct (is_real_official o); [apply NoDup_group_add|]; assumption.
    + intros k. rewrite members_snoc.
      destruct (is_real_official o); cbn [andb].
      * rewrite matches_of_group_add, <- !Hm.
        destruct (key_eqb k (key_of o)) eqn:E.
        -- apply key_eqb_eq in E. subst k. rewrite key_eqb_refl. reflexivity.
        -- assert (E' : key_eqb (key_of o) k = false).
           { apply key_eqb_neq. apply key_eqb_neq in E. congruence. }
           rewrite E', app_nil_r. reflexivity.
      * rewrite app_nil_r. apply Hm.
    + intros k. rewrite survivors_snoc, map_app, in_app_iff, <- Hk.
      destruct (is_real_official o); cbn [map In].
      * rewrite keys_group_add. intuition congruence.
      * intuition.
Qed.

Lemma matches_of_In (k : key) (ms : list Official)
      (g : list (key * list Official)) :
  NoDup (map fst g) -> In (k, ms) g -> matches_of k g = ms.
Proof.
  induction g as [|[k0 ms0] g IH]; cbn [map fst In matches_of]; intros Hnd Hin.
  - contradiction.
  - inversion Hnd as [|? ? Hnotin Hnd']; subst.
    destruct Hin as [Heq|Hin].
    + injection Heq as -> ->. rewrite key_eqb_refl. reflexivity.
    + destruct (key_eqb k k0) eqn:E.
      * apply key_eqb_eq in E. subst k0. exfalso. apply Hnotin.
        change k with (fst (k, ms)). apply in_map. assumption.
      * apply IH; assumption.
Qed.

Lemma group_officials_In (l : list Official) (k : key) (ms : list Official) :
  In (k, ms) (group_officials l) ->
  ms = members k l /\
  exists seed rest, ms = seed :: rest /\ is_real_official seed = true
                    /\ key_of seed = k.
Proof.
  intros Hin.
  destruct (group_officials_spec l) as (Hnd & Hm & Hk).
  assert (Hms : ms = members k l).
  { rewrite <- Hm. symmetry. apply matches_of_In; assumption. }
  split; [exact Hms|].
  assert (Hkey : In k (map key_of (survivors l))).
  { apply Hk. change k with (fst (k, ms)). apply in_map. assumption. }
  apply in_map_iff in Hkey. destruct Hkey as (o & Ho & Hin').
  assert (Hmem : In o (members k l)).
  { unfold members. apply filter_In. split; [assumption|].
    apply key_eqb_eq. assumption. }
  rewrite <- Hms in Hmem.
  destruct ms as [|seed rest]; [contradiction|].
  exists seed, rest. split; [reflexivity|].
  assert (Hseed : In seed (members k l)) by (rewrite <- Hms; left; reflexivity).
  unfold members, survivors in Hseed.
  apply filter_In in Hseed. destruct Hseed as [Hs Hkeq].
  apply filter_In in Hs. destruct Hs as [_ Hreal].
  apply key_eqb_eq in Hkeq. auto.
Qed.

(** ** Merging a group *)

Lemma fill_step (c x : option string) (later : list (option string)) :
  fill (if negb (truthy c) && truthy x then x else c) later = fill c (x :: later).
Proof.
  unfold fill. cbn [find].
  destruct (truthy c) eqn:Ec; cbn [negb andb].
  - rewrite Ec. reflexivity.
  - destruct (truthy x) eqn:Ex.
    + rewrite Ex. reflexivity.
    + rewrite Ec. reflexivity.
Qed.

Lemma merge_match_fields (b m : Official) :
  name (merge_match b m) = name b /\
  title (merge_match b m) = title b /\
  source (merge_match b m) = source b /\
  confidence_score (merge_match b m) = confidence_score b /\
  email (merge_match b m) =
    (if negb (truthy (email b)) && truthy (email m) then email m else email b) /\
  phone (merge_match b m) =
    (if negb (truthy (phone b)) && truthy (phone m) then phone m else phone b) /\
  linkedin_url (merge_match b m) =
    (if negb (truthy (linkedin_url b)) && truthy (linkedin_url m)
     then linkedin_url m else linkedin_url b).
Proof.
  unfold merge_match.
  destruct (negb (truthy (email b)) && truthy (email m));
    cbn [phone set_email];
    destruct (negb (truthy (phone b)) && truthy (phone m));
    cbn [linkedin_url set_email set_phone];
    destruct (negb (truthy (linkedin_url b)) && truthy (linkedin_url m));
    repeat split.
Qed.

(** The merged record of a group: the identity of the first member, and
    each optional field filled first-non-empty-wins along the group. *)
Lemma merge_matches_fields (others : list Official) :
  forall first : Official,
    let best := merge_matches first others in
    name best = name first /\
    title best = title first /\
    source best = source first /\
    confidence_score best = confidence_score first /\
    email best = fill (email first) (map email others) /\
    phone best = fill (phone first) (map phone others) /\
    linkedin_url best = fill (linkedin_url first) (map linkedin_url others).
Proof.
  unfold merge_matches.
  induction others as [|m others IH]; intros first; cbn [fold_left map].
  - unfold fill. cbn [find].
    destruct (truthy (email first)), (truthy (phone first)),
             (truthy (linkedin_url first)); repeat split.
  - destruct (IH (merge_match first m)) as (Hn & Ht & Hs & Hc & He & Hp & Hl).
    destruct (merge_match_fields first m) as (Hn' & Ht' & Hs' & Hc' & He' & Hp' & Hl').
    cbv zeta.
    rewrite Hn, Ht, Hs, Hc, He, Hp, Hl, Hn', Ht', Hs', Hc', He', Hp', Hl'.
    rewrite !fill_step. repeat split.
Qed.

Section Resolution.

Variable W : World.
Variables municipality_name state : string.

Lemma resolve_group_value (acc : list Official) (item : key * list Official) :
  Eff.value (resolve_group W municipality_name state acc item) =
  acc ++ resolved W municipality_name state item.
Proof.
  unfold resolve_group, resolved. destruct (snd item) as [|first others].
  - cbn. rewrite app_nil_r. reflexivity.
  - rewrite value_bind. unfold resolve, finish, enrich.
    destruct (negb (truthy (linkedin_url (merge_matches first others)))
              && nonempty municipality_name && nonempty state).
    + rewrite value_bind. cbn [Eff.ret Eff.value fst].
      destruct (calculate_confidence_score _) as [score best]. reflexivity.
    + cbn [Eff.ret Eff.value fst].
      destruct (calculate_confidence_score _) as [score best]. reflexivity.
Qed.

Lemma for_each_resolve_value (groups : list (key * list Official)) :
  forall acc,
    Eff.value (Eff.for_each groups (resolve_group W municipality_name state) acc)
    = acc ++ flat_map (resolved W municipality_name state) groups.
Proof.
  induction groups as [|item groups IH]; intros acc; cbn [Eff.for_each flat_map].
  - cbn. rewrite app_nil_r. reflexivity.
  - rewrite value_bind, IH, resolve_group_value, app_assoc. reflexivity.
Qed.

End Resolution.

(** ** Scoring a merged record *)

Lemma format_phone_eq (o : Official) : format_phone o = with_formatted_phone o.
Proof.
  unfold format_phone, with_formatted_phone.
  destruct (phone o) as [p|]; [|reflexivity].
  destruct (validate_phone p) as [f|] eqn:Ev.
  - assert (Hp : truthy (Some p) = true).
    { destruct p; [discriminate Ev | reflexivity]. }
    rewrite Hp, (validate_phone_nonempty _ Ev). reflexivity.
  - destruct (truthy (Some p)); reflexivity.
Qed.

Lemma finish_eq (best : Official) :
  finish best =
  set_confidence_score (with_formatted_phone best)
                       (fst (calculate_confidence_score best)).
Proof.
  unfold finish. rewrite format_phone_eq, calculate_confidence_score_eq.
  cbn [fst snd].
  pose proof (with_formatted_phone_idempotent best) as Hi.
  unfold with_formatted_phone in *.
  destruct (phone best) as [p|] eqn:Ep.
  - destruct (validate_phone p) as [f|] eqn:Ev.
    + cbn [phone set_confidence_score set_phone] in *.
      rewrite (validate_phone_idempotent _ Ev). reflexivity.
    + cbn [phone set_confidence_score]. rewrite Ep, Ev. reflexivity.
  - cbn [phone set_confidence_score]. rewrite Ep. reflexivity.
Qed.

(** The stamped score of a finished record is the score of its own final
    field contents. *)
Lemma finish_score (best : Official) :
  confidence_score (finish best) = fst (calculate_confidence_score (finish best)).
Proof.
  rewrite finish_eq. cbn [confidence_score set_confidence_score].
  rewrite !calculate_confidence_score_eq. cbn [fst].
  change (signals (set_confidence_score (with_formatted_phone best)
                     (satisfied_weight (signals best) / total_weight (signals best))))
    with (signals (with_formatted_phone best)).
  rewrite signals_formatted. reflexivity.
Qed.

Lemma finish_fields (best : Official) :
  name (finish best) = name best /\ title (finish best) = title best /\
  email (finish best) = email best /\
  linkedin_url (finish best) = linkedin_url best /\
  source (finish best) = source best /\
  phone (finish best) =
    match phone best with
    | Some p =>
        match validate_phone p with
        | Some formatted => Some formatted
        | None => Some p
        end
    | None => None
    end.
Proof.
  rewrite finish_eq. unfold with_formatted_phone.
  destruct (phone best) as [p|] eqn:Ep.
  - destruct (validate_phone p) as [f|] eqn:Ev; cbn; rewrite ?Ep; repeat split.
  - cbn. rewrite Ep. repeat split.
Qed.

Lemma enrich_fields (W : World) (m s : string) (best : Official) :
  name (enrich W m s best) = name best /\
  title (enrich W m s best) = title best /\
  email (enrich W m s best) = email best /\
  phone (enrich W m s best) = phone best /\
  source (enrich W m s best) = source best /\
  (truthy (linkedin_url best) = true ->
   linkedin_url (enrich W m s best) = linkedin_url best).
Proof.
  unfold enrich.
  destruct (truthy (linkedin_url best)) eqn:El; cbn [negb andb].
  - repeat split.
  - destruct (nonempty m && nonempty s).
    + destruct (truthy (Eff.value (search_linkedin_profile W (name best) (title best) m s)));
        cbn; repeat split; discriminate.
    + repeat split; discriminate.
Qed.

(** A record with a valid name and a valid title scores at least the
    double 0.6. *)
Lemma valid_name_title_score (o : Official) :
  is_real_official o = true ->
  (0.6 <=? fst (calculate_confidence_score o))%float = true.
Proof.
  unfold is_real_official. intros H. apply andb_prop in H. destruct H as [Hn Ht].
  rewrite calculate_confidence_score_eq. cbn [fst]. unfold signals.
  rewrite Hn, Ht.
  destruct (validate_email (email o)), (phone_formats o),
           (truthy (linkedin_url o)); reflexivity.
Qed.

(** ** Ranking *)

Lemma insert_by_score_perm (x : Official) (l : list Official) :
  Permutation (insert_by_score x l) (x :: l).
Proof.
  induction l as [|y l IH]; cbn [insert_by_score].
  - apply Permutation_refl.
  - destruct (confidence_score x <? confidence_score y)%float.
    + apply Permutation_trans with (y :: x :: l).
      * apply perm_skip. exact IH.
      * apply perm_swap.
    + apply Permutation_refl.
Qed.

Lemma sort_by_score_perm (l : list Official) : Permutation (sort_by_score l) l.
Proof.
  unfold sort_by_score. induction l as [|x l IH]; cbn [fold_right].
  - apply Permutation_refl.
  - apply Permutation_trans with (x :: fold_right insert_by_score [] l).
    + apply insert_by_score_perm.
    + apply perm_skip. exact IH.
Qed.

(** ** The output of [score_and_deduplicate] *)

Lemma score_and_deduplicate_value (W : World) (l : list Official) (m s : string) :
  Eff.value (score_and_deduplicate W l m s) =
  sort_by_score (flat_map (resolved W m s) (group_officials l)).
Proof.
  unfold score_and_deduplicate. destruct l as [|o l]; [reflexivity|].
  rewrite value_bind, for_each_resolve_value. reflexivity.
Qed.

(** Every output record is the resolution of one group of the dictionary,
    and every group yields one. *)
Lemma output_iff (W : World) (l : list Official) (m s : string) (o : Official) :
  In o (Eff.value (score_and_deduplicate W l m s)) <->
  exists k seed rest,
    In (k, seed :: rest) (group_officials l) /\ o = resolve W m s seed rest.
Proof.
  rewrite score_and_deduplicate_value.
  split.
  - intros H. apply (Permutation_in _ (sort_by_score_perm _)) in H.
    apply in_flat_map in H. destruct H as ([k ms] & Hin & Ho).
    unfold resolved in Ho. cbn [snd] in Ho.
    destruct ms as [|seed rest]; [contradiction|].
    destruct Ho as [<-|[]]. exists k, seed, rest. auto.
  - intros (k & seed & rest & Hin & ->).
    apply (Permutation_in _ (Permutation_sym (sort_by_score_perm _))).
    apply in_flat_map. exists (k, seed :: rest). split; [assumption|].
    left. reflexivity.
Qed.

(** ** Merge: one record per key *)

Lemma resolve_fields (W : World) (m s : string) (seed : Official)
      (rest : list Official) :
  let o := resolve W m s seed rest in
  name o = name seed /\ title o = title seed /\ source o = source seed /\
  email o = fill (email seed) (map email rest) /\
  phone o = canonical_phone (fill (phone seed) (map phone rest)) /\
  (truthy (fill (linkedin_url seed) (map linkedin_url rest)) = true ->
   linkedin_url o = fill (linkedin_url seed) (map linkedin_url rest)) /\
  confidence_score o = fst (calculate_confidence_score o).
Proof.
  cbv zeta. unfold resolve.
  destruct (finish_fields (enrich W m s (merge_matches seed rest)))
    as (Fn & Ft & Fe & Fl & Fs & Fp).
  destruct (enrich_fields W m s (merge_matches seed rest))
    as (En & Et & Ee & Ep & Es & El).
  destruct (merge_matches_fields rest seed) as (Mn & Mt & Ms & _ & Me & Mp & Ml).
  cbv zeta in Mn, Mt, Ms, Me, Mp, Ml.
  rewrite Fn, Ft, Fs, Fe, Fp, Fl, En, Et, Es, Ee, Ep, Mn, Mt, Ms, Me, Mp.
  repeat split.
  - intros H. rewrite <- Ml in *. apply El. exact H.
  - apply finish_score.
Qed.

Lemma resolve_key (W : World) (m s : string) (seed : Official)
      (rest : list Official) :
  key_of (resolve W m s seed rest) = key_of seed.
Proof.
  destruct (resolve_fields W m s seed rest) as (Hn & Ht & _).
  unfold key_of. rewrite Hn, Ht. reflexivity.
Qed.

Lemma keys_resolved (W : World) (m s : string) (g : list (key * list Official)) :
  (forall k ms, In (k, ms) g ->
                exists seed rest, ms = seed :: rest /\ key_of seed = k) ->
  map key_of (flat_map (resolved W m s) g) = map fst g.
Proof.
  induction g as [|[k ms] g IH]; intros H; cbn [flat_map map fst].
  - reflexivity.
  - destruct (H k ms (or_introl eq_refl)) as (seed & rest & -> & Hk).
    unfold resolved at 1. cbn [snd app map].
    rewrite resolve_key, Hk. f_equal.
    apply IH. intros k' ms' Hin. apply H. right. exact Hin.
Qed.

Lemma output_keys (W : World) (l : list Official) (m s : string) :
  Permutation (map key_of (Eff.value (score_and_deduplicate W l m s)))
              (map fst (group_officials l)).
Proof.
  rewrite score_and_deduplicate_value.
  rewrite <- (@keys_resolved W m s (group_officials l)).
  - apply Permutation_map. apply sort_by_score_perm.
  - intros k ms Hin. apply group_officials_In in Hin.
    destruct Hin as (_ & seed & rest & Hms & _ & Hk).
    exists seed, rest. auto.
Qed.

(** C2.  The merge step groups the candidates that pass name and title
    validation by the key (lowercased name, lowercased title) and
    produces exactly one output record per key.  The record of a key
    takes its name, title and source from the first candidate of the
    group in encounter order; its email, phone and LinkedIn URL are filled
    first-non-empty-wins along the group, so a later member supplies a
    field only while that field is still empty (the phone then appears in
    canonical form when it formats). *)
Theorem merge_one_record_per_key (W : World) (l : list Official) (m s : string) :
  let out := Eff.value (score_and_deduplicate W l m s) in
  let lowered (o : Official) := (lower (name o), lower (title o)) in
  NoDup (map lowered out) /\
  (forall k, In k (map lowered out) <-> In k (map lowered (survivors l))) /\
  Forall
    (fun o =>
       exists seed rest,
         filter (fun c => String.eqb (lower (name c)) (lower (name o))
                          && String.eqb (lower (title c)) (lower (title o)))
                (survivors l) = seed :: rest /\
         name o = name seed /\ title o = title seed /\ source o = source seed /\
         email o = fill (email seed) (map email rest) /\
         phone o = canonical_phone (fill (phone seed) (map phone rest)) /\
         (truthy (fill (linkedin_url seed) (map linkedin_url rest)) = true ->
          linkedin_url o = fill (linkedin_url seed) (map linkedin_url rest)))
    out.
Proof.
  cbv zeta.
  change (fun o : Official => (lower (name o), lower (title o))) with key_of.
  destruct (group_officials_spec l) as (Hnd & _ & Hk).
  pose proof (output_keys W l m s) as Hperm.
  split; [|split].
  - apply (Permutation_NoDup (Permutation_sym Hperm)). exact Hnd.
  - intros k. rewrite <- Hk. split; intros H.
    + apply (Permutation_in _ Hperm). exact H.
    + apply (Permutation_in _ (Permutation_sym Hperm)). exact H.
  - apply Forall_forall. intros o Ho.
    apply output_iff in Ho. destruct Ho as (k & seed & rest & Hin & ->).
    apply group_officials_In in Hin.
    destruct Hin as (Hms & _ & _ & _ & _ & _).
    assert (Hkey : key_of seed = k).
    { assert (Hs : In seed (members k l)) by (rewrite <- Hms; left; reflexivity).
      unfold members in Hs. apply filter_In in Hs. destruct Hs as [_ Hs].
      apply key_eqb_eq. exact Hs. }
    destruct (resolve_fields W m s seed rest) as (Hn & Ht & Hs & He & Hp & Hl & _).
    exists seed, rest.
    change (filter
              (fun c => String.eqb (lower (name c))
                                   (lower (name (resolve W m s seed rest)))
                        && String.eqb (lower (title c))
                                      (lower (title (resolve W m s seed rest))))
              (survivors l))
      with (members (key_of (resolve W m s seed rest)) l).
    rewrite resolve_key, Hkey, <- Hms.
    repeat split; assumption.
Qed.

(** The two mentions of Jane Doe, Clerk -- one with an email, one with a
    phone -- resolve to one record that carries both, on any network and
    for any municipality. *)
Lemma jane_doe_merges (W : World) (m s : string) :
  exists o,
    Eff.value (score_and_deduplicate W [jane_email; jane_phone] m s) = [o] /\
    email o = Some "jane@city.gov" /\ phone o = Some "(515) 555-1234".
Proof.
  exists (resolve W m s jane_email [jane_phone]).
  split.
  - rewrite score_and_deduplicate_value.
    replace (group_officials [jane_email; jane_phone])
      with [(key_of jane_email, [jane_email; jane_phone])]
      by (vm_compute; reflexivity).
    reflexivity.
  - destruct (resolve_fields W m s jane_email [jane_phone])
      as (_ & _ & _ & He & Hp & _).
    split; [exact He | exact Hp].
Qed.

Lemma merge_one_record_per_key_witness :
  exists jane bob,
    Eff.value (score_and_deduplicate offline
                 [jane_email; bob_mayor; jane_upper_phone]
                 "Springfield" "IL") = [jane; bob] /\
    name jane = "Jane Doe" /\ title jane = "Clerk" /\
    email jane = Some "jane@city.gov" /\ phone jane = Some "(515) 555-1234" /\
    name bob = "Bob Smith" /\ title bob = "Mayor".
Proof.
  destruct (merge_one_record_per_key offline
              [jane_email; bob_mayor; jane_upper_phone]
              "Springfield" "IL") as (_ & _ & HF).
  cbv zeta in HF.
  remember (Eff.value (score_and_deduplicate offline
                         [jane_email; bob_mayor; jane_upper_phone]
                         "Springfield" "IL")) as out eqn:E.
  vm_compute in E. subst out.
  inversion HF as [|jane tl Hjane Htl]; subst.
  inversion Htl as [|bob tl' Hbob _]; subst.
  destruct Hjane as (seed & rest & Hm & Hn & Ht & _ & He & Hp & _).
  vm_compute in Hm. injection Hm as <- <-.
  destruct Hbob as (seed' & rest' & Hm' & Hn' & Ht' & _).
  vm_compute in Hm'. injection Hm' as <- <-.
  eexists. eexists. split; [reflexivity|].
  split; [exact Hn|]. split; [exact Ht|]. split; [exact He|].
  split; [exact Hp|]. split; [exact Hn' | exact Ht'].
Defined.

(** ** The pipeline: what reaches [score_and_deduplicate] *)

Lemma search_for_officials_value (W : World) (m s : string) :
  exists results,
    Eff.value (search_for_officials W m s) =
    Eff.value (score_and_deduplicate W results m s).
Proof.
  unfold search_for_officials. rewrite !value_bind.
  eexists. reflexivity.
Qed.

(** ** Validation before merging *)

Lemma group_officials_survivors (l : list Official) :
  group_officials l = group_officials (survivors l).
Proof.
  induction l as [|o l IH] using rev_ind; [reflexivity|].
  rewrite survivors_snoc, group_officials_snoc.
  destruct (is_real_official o) eqn:E.
  - rewrite group_officials_snoc, E, IH. reflexivity.
  - rewrite app_nil_r. exact IH.
Qed.

Lemma denylisted_name_invalid (n indicator : string) :
  In indicator NON_OFFICIAL_INDICATORS ->
  contains (lower indicator) (lower n) = true ->
  validate_official_name n = false.
Proof.
  intros Hin Hc. unfold validate_official_name.
  destruct (String.length n <? 4); [reflexivity|].
  assert (He : existsb (fun i => contains (lower i) (lower n))
                       NON_OFFICIAL_INDICATORS = true).
  { apply existsb_exists. exists indicator. auto. }
  rewrite He. reflexivity.
Qed.

Lemma validate_candidate_valid (o v : Official) :
  validate_candidate o = Some v -> is_real_official v = true.
Proof.
  unfold validate_candidate, is_real_official.
  destruct (validate_official_name (name o) && validate_official_title (title o))
    eqn:E; [|discriminate].
  intros H. injection H as <-. cbv zeta.
  repeat match goal with
         | |- context [if ?c then _ else _] => destruct c
         | |- context [match validate_phone ?p with _ => _ end] =>
             destruct (validate_phone p)
         end; exact E.
Qed.

Lemma output_valid (W : World) (l : list Official) (m s : string) :
  Forall (fun o => is_real_official o = true)
         (Eff.value (score_and_deduplicate W l m s)).
Proof.
  apply Forall_forall. intros o Ho.
  apply output_iff in Ho. destruct Ho as (k & seed & rest & Hin & ->).
  apply group_officials_In in Hin.
  destruct Hin as (_ & seed' & rest' & Heq & Hreal & _).
  injection Heq as <- <-.
  destruct (resolve_fields W m s seed rest) as (Hn & Ht & _).
  unfold is_real_official in *. rewrite Hn, Ht. exact Hreal.
Qed.

(** C6.  Candidates whose name or title fails validation do not enter the
    grouping (the dictionary is that of the valid candidates alone), and
    every record the resolution returns -- from [score_and_deduplicate] on
    any candidate list, hence from [search_for_officials] -- has a valid
    name and a valid title, whatever else the candidates carried.  The
    text extractor hands over valid candidates only.  A name that
    contains a denylist term is invalid; "Acme Vendor Solutions" is. *)
Theorem invalid_candidates_excluded (W : World) (l : list Official) (m s : string) :
  group_officials l = group_officials (survivors l) /\
  Forall (fun o => validate_official_name (name o) = true /\
                   validate_official_title (title o) = true)
         (Eff.value (score_and_deduplicate W l m s)) /\
  Forall (fun o => validate_official_name (name o) = true /\
                   validate_official_title (title o) = true)
         (Eff.value (search_for_officials W m s)) /\
  (forall text,
      Forall (fun o => validate_official_name (name o) = true /\
                       validate_official_title (title o) = true)
             (extract_officials_from_text W text)) /\
  (forall n indicator,
      In indicator NON_OFFICIAL_INDICATORS ->
      contains (lower indicator) (lower n) = true ->
      validate_official_name n = false) /\
  validate_official_name "Acme Vendor Solutions" = false.
Proof.
  assert (Hv : forall o, is_real_official o = true ->
                         validate_official_name (name o) = true /\
                         validate_official_title (title o) = true).
  { intros o H. apply andb_prop in H. exact H. }
  split; [apply group_officials_survivors|].
  split; [|split; [|split; [|split]]].
  - eapply Forall_impl; [exact Hv | apply output_valid].
  - destruct (search_for_officials_value W m s) as (results & ->).
    eapply Forall_impl; [exact Hv | apply output_valid].
  - intros text. unfold extract_officials_from_text.
    induction (pattern_candidates W text) as [|o cs IH]; cbn [validated_results].
    + constructor.
    + destruct (validate_candidate o) as [v|] eqn:E; [|exact IH].
      constructor; [|exact IH].
      apply Hv. eapply validate_candidate_valid. exact E.
  - exact denylisted_name_invalid.
  - reflexivity.
Qed.

Lemma invalid_candidates_excluded_witness :
  validate_official_name (name acme_vendor) = false /\
  Eff.value (score_and_deduplicate offline [acme_vendor; jane_clerk]
               "Springfield" "IL") =
  Eff.value (score_and_deduplicate offline [jane_clerk] "Springfield" "IL").
Proof.
  destruct (invalid_candidates_excluded offline [acme_vendor; jane_clerk]
              "Springfield" "IL") as (Hg & _ & _ & _ & Hd & _).
  split.
  - apply (Hd _ "vendor"); [|reflexivity].
    unfold NON_OFFICIAL_INDICATORS. cbn [In]. tauto.
  - rewrite !score_and_deduplicate_value, Hg. reflexivity.
Defined.

(** ** Threshold *)

Lemma stamped_score (o : Official) :
  confidence_score (stamped o) = fst (calculate_confidence_score (stamped o)).
Proof.
  unfold stamped. rewrite !calculate_confidence_score_eq. cbn [fst snd].
  cbn [confidence_score set_confidence_score].
  change (signals (set_confidence_score (with_formatted_phone o)
                     (satisfied_weight (signals o) / total_weight (signals o))%float))
    with (signals (with_formatted_phone o)).
  rewrite signals_formatted. reflexivity.
Qed.

Lemma filter_officials_eq (l : list Official) (min_confidence : float) :
  filter_officials l min_confidence =
  filter (fun o => (min_confidence <=? confidence_score o)%float) (map stamped l).
Proof.
  induction l as [|o l IH]; cbn [filter_officials map filter]; [reflexivity|].
  unfold stamped at 1 2.
  destruct (calculate_confidence_score o) as [confidence o'].
  cbn [fst snd confidence_score set_confidence_score].
  rewrite IH. reflexivity.
Qed.

Lemma output_scores (W : World) (l : list Official) (m s : string) :
  Forall (fun o => confidence_score o = fst (calculate_confidence_score o) /\
                   (default_min_confidence <=? confidence_score o)%float = true)
         (Eff.value (score_and_deduplicate W l m s)).
Proof.
  apply Forall_forall. intros o Ho.
  pose proof (output_valid W l m s) as Hv.
  rewrite Forall_forall in Hv. specialize (Hv o Ho).
  apply output_iff in Ho. destruct Ho as (k & seed & rest & _ & ->).
  destruct (resolve_fields W m s seed rest) as (_ & _ & _ & _ & _ & _ & Hc).
  split; [exact Hc|]. rewrite Hc.
  apply valid_name_title_score. exact Hv.
Qed.

Lemma output_length (W : World) (l : list Official) (m s : string) :
  List.length (Eff.value (score_and_deduplicate W l m s)) =
  List.length (group_officials l).
Proof.
  rewrite <- (length_map key_of), <- (length_map fst (group_officials l)).
  apply Permutation_length. apply output_keys.
Qed.

(** C4.  After merging, the confidence of every merged record is
    recomputed from its fields, and no record that scores below the
    threshold, 0.6, appears in the final output: the output of
    [score_and_deduplicate] and of [search_for_officials] holds only
    records whose recomputed score reaches 0.6.  The merge itself drops
    no record, one record leaves per group; the bound holds because only
    candidates with a valid name and title are merged, and such a record
    scores at least [0.4 + 0.2].  The threshold is the parameter of
    [filter_officials], whose default the pipeline uses; for every value
    of it [filter_officials] returns, stamped with their recomputed
    score, exactly the candidates that reach it. *)
Theorem output_reaches_default_threshold (W : World) (l : list Official)
        (m s : string) :
  Forall (fun o => confidence_score o = fst (calculate_confidence_score o) /\
                   (0.6 <=? confidence_score o)%float = true)
         (Eff.value (score_and_deduplicate W l m s)) /\
  Forall (fun o => confidence_score o = fst (calculate_confidence_score o) /\
                   (0.6 <=? confidence_score o)%float = true)
         (Eff.value (search_for_officials W m s)) /\
  List.length (Eff.value (score_and_deduplicate W l m s)) =
    List.length (group_officials l) /\
  (forall min_confidence : float,
      filter_officials l min_confidence =
        filter (fun o => (min_confidence <=? confidence_score o)%float)
               (map stamped l) /\
      Forall (fun o => confidence_score o = fst (calculate_confidence_score o) /\
                       (min_confidence <=? confidence_score o)%float = true)
             (filter_officials l min_confidence)).
Proof.
  split; [apply output_scores|].
  split; [|split; [apply output_length|]].
  - destruct (search_for_officials_value W m s) as (results & ->).
    apply output_scores.
  - intros t. split; [apply filter_officials_eq|].
    rewrite filter_officials_eq. apply Forall_forall. intros o Ho.
    apply filter_In in Ho. destruct Ho as [Hin Ht].
    apply in_map_iff in Hin. destruct Hin as (c & <- & _).
    split; [apply stamped_score | exact Ht].
Qed.

(** ** Independence from the incoming score *)

Lemma merge_match_erase (b m : Official) :
  merge_match (erase b) (erase m) = erase (merge_match b m).
Proof.
  destruct b as [bn bt be bp bl bs bc], m as [mn mt me mp ml ms mc].
  unfold merge_match, erase, set_confidence_score, set_email, set_phone,
    set_linkedin_url.
  cbn [name title email phone linkedin_url source confidence_score].
  destruct (truthy be), (truthy me); cbn [negb andb];
    cbn [name title email phone linkedin_url source confidence_score];
    destruct (truthy bp), (truthy mp); cbn [negb andb];
    cbn [name title email phone linkedin_url source confidence_score];
    destruct (truthy bl), (truthy ml); reflexivity.
Qed.

Lemma merge_matches_erase (others : list Official) :
  forall first,
    merge_matches (erase first) (map erase others) =
    erase (merge_matches first others).
Proof.
  unfold merge_matches.
  induction others as [|m others IH]; intros first; cbn [map fold_left].
  - reflexivity.
  - rewrite merge_match_erase. apply IH.
Qed.

Lemma group_add_erase (k : key) (o : Official) (g : list (key * list Official)) :
  group_add k (erase o) (map erase_group g) = map erase_group (group_add k o g).
Proof.
  induction g as [|[k0 ms] g IH]; cbn [group_add map].
  - reflexivity.
  - unfold erase_group at 1. cbn [fst snd group_add].
    destruct (key_eqb k k0); cbn [map].
    + unfold erase_group at 2. cbn [fst snd]. rewrite map_app. reflexivity.
    + rewrite IH. reflexivity.
Qed.

Lemma group_officials_erase (l : list Official) :
  group_officials (map erase l) = map erase_group (group_officials l).
Proof.
  induction l as [|o l IH] using rev_ind; [reflexivity|].
  rewrite map_app. cbn [map]. rewrite !group_officials_snoc, IH.
  change (is_real_official (erase o)) with (is_real_official o).
  change (key_of (erase o)) with (key_of o).
  destruct (is_real_official o); [apply group_add_erase | reflexivity].
Qed.

Lemma with_formatted_phone_erase (o : Official) (v : float) :
  set_confidence_score (with_formatted_phone (erase o)) v =
  set_confidence_score (with_formatted_phone o) v.
Proof.
  unfold with_formatted_phone. cbn [phone erase set_confidence_score].
  destruct (phone o) as [p|]; [destruct (validate_phone p)|]; reflexivity.
Qed.

Lemma resolve_group_erase (W : World) (m s : string) (acc : list Official)
      (item : key * list Official) :
  resolve_group W m s acc (erase_group item) = resolve_group W m s acc item.
Proof.
  unfold resolve_group, erase_group. cbn [snd].
  destruct (snd item) as [|first others]; [reflexivity|].
  cbn [map]. rewrite merge_matches_erase.
  set (best := merge_matches first others).
  cbn [linkedin_url name title erase set_confidence_score].
  assert (Hfinish : forall x : Official,
             (let '(score, best_match) := calculate_confidence_score (erase x) in
              Eff.ret (acc ++ [format_phone (set_confidence_score best_match score)]))
             = (let '(score, best_match) := calculate_confidence_score x in
                Eff.ret (acc ++ [format_phone (set_confidence_score best_match score)]))).
  { intros x. rewrite !calculate_confidence_score_eq.
    change (signals (erase x)) with (signals x).
    rewrite with_formatted_phone_erase. reflexivity. }
  assert (Hk : forall M1 M2 : Eff.M Official,
             fst M1 = erase (fst M2) -> snd M1 = snd M2 ->
             Eff.bind M1
               (fun best_match =>
                  let '(score, best_match0) := calculate_confidence_score best_match in
                  Eff.ret (acc ++ [format_phone (set_confidence_score best_match0 score)]))
             = Eff.bind M2
                 (fun best_match =>
                    let '(score, best_match0) := calculate_confidence_score best_match in
                    Eff.ret (acc ++ [format_phone (set_confidence_score best_match0 score)]))).
  { intros [x1 w1] [x2 w2] Hx Hw. cbn [fst snd] in Hx, Hw. subst x1 w1.
    unfold Eff.bind. rewrite (Hfinish x2). reflexivity. }
  apply Hk.
  - destruct (negb (truthy (linkedin_url best)) && nonempty m && nonempty s);
      [|reflexivity].
    destruct (search_linkedin_profile W (name best) (title best) m s) as [found w].
    unfold Eff.bind, Eff.ret. cbn [fst]. destruct (truthy found); reflexivity.
  - destruct (negb (truthy (linkedin_url best)) && nonempty m && nonempty s);
      [|reflexivity].
    destruct (search_linkedin_profile W (name best) (title best) m s) as [found w].
    reflexivity.
Qed.

Lemma score_and_deduplicate_erase (W : World) (l : list Official) (m s : string) :
  score_and_deduplicate W (map erase l) m s = score_and_deduplicate W l m s.
Proof.
  unfold score_and_deduplicate. destruct l as [|o l]; [reflexivity|].
  cbn [map]. change (erase o :: map erase l) with (map erase (o :: l)).
  rewrite group_officials_erase, for_each_map.
  assert (H : forall groups acc,
             Eff.for_each groups
               (fun acc0 x => resolve_group W m s acc0 (erase_group x)) acc
             = Eff.for_each groups (resolve_group W m s) acc).
  { induction groups as [|g groups IH]; intros acc; cbn [Eff.for_each].
    - reflexivity.
    - rewrite resolve_group_erase. unfold Eff.bind.
      destruct (resolve_group W m s acc g) as [a w]. rewrite IH. reflexivity. }
  rewrite H. reflexivity.
Qed.

(** The score reads five fields of a record and nothing else. *)
Lemma score_reads_five_fields (o o' : Official) :
  name o = name o' -> title o = title o' -> email o = email o' ->
  phone o = phone o' -> linkedin_url o = linkedin_url o' ->
  fst (calculate_confidence_score o) = fst (calculate_confidence_score o').
Proof.
  intros Hn Ht He Hp Hl.
  rewrite !calculate_confidence_score_eq. cbn [fst].
  unfold signals, phone_formats. rewrite Hn, Ht, He, Hp, Hl. reflexivity.
Qed.

(** C9 (as stated, refuted).  The earlier copy of the module,
    src/civileads/scraper.py, lacks the property: two candidate lists
    that differ only in the incoming [confidence_score] leave it with
    different scores. *)
Lemma legacy_score_follows_incoming :
  map erase [set_confidence_score jane_clerk 0.1%float]
  = map erase [set_confidence_score jane_clerk 0.5%float] /\
  map confidence_score
      (Eff.value (Legacy.score_and_deduplicate offline
                    [set_confidence_score jane_clerk 0.1%float] "" ""))
  = [0.4%float] /\
  map confidence_score
      (Eff.value (Legacy.score_and_deduplicate offline
                    [set_confidence_score jane_clerk 0.5%float] "" ""))
  = [0.8%float] /\
  map confidence_score
      (Eff.value (Legacy.score_and_deduplicate offline
                    [set_confidence_score jane_clerk 0.1%float] "" ""))
  <> map confidence_score
         (Eff.value (Legacy.score_and_deduplicate offline
                       [set_confidence_score jane_clerk 0.5%float] "" "")).
Proof.
  split; [reflexivity|]. split; [vm_compute; reflexivity|].
  split; [vm_compute; reflexivity|].
  intros H.
  apply (f_equal (fun scores =>
                    match scores with
                    | score :: _ => (score <? 0.5)%float
                    | [] => false
                    end)) in H.
  vm_compute in H. discriminate H.
Qed.

Lemma legacy_single_candidate (W : World) (c : Official) :
  map confidence_score (Eff.value (Legacy.score_and_deduplicate W [c] "" ""))
  = [Legacy.py_min 1.0%float (legacy_seed_score c)].
Proof.
  unfold Legacy.score_and_deduplicate, Legacy.group_officials.
  cbn [fold_left group_add Eff.for_each].
  unfold Legacy.resolve_group. cbn [snd fold_left].
  change (nonempty "") with false. rewrite !andb_false_r.
  unfold legacy_seed_score.
  repeat match goal with
         | |- context [if ?b then _ else _] => destruct b
         end; reflexivity.
Qed.

(** C9 (amended).  In the package [civileads_project] the confidence of
    every output record depends only on the contents of its fields: two
    candidate lists that differ only in the incoming [confidence_score]
    of the candidates produce the same output (records, scores and order)
    and issue the same requests; the score of an output record is the
    score recomputed from the record itself; and that score is the same
    for any two records with the same name, title, email, phone and
    LinkedIn URL.  The earlier copy, src/civileads/scraper.py, starts
    from the incoming score instead: a single candidate leaves it, when
    no municipality is given, with the incoming score plus the bonuses
    for its email, phone and source, capped at 1.0. *)
Theorem confidence_recomputed_from_fields (W : World) (l1 l2 : list Official)
        (m s : string) :
  map erase l1 = map erase l2 ->
  score_and_deduplicate W l1 m s = score_and_deduplicate W l2 m s /\
  Forall (fun o => confidence_score o = fst (calculate_confidence_score o))
         (Eff.value (score_and_deduplicate W l1 m s)) /\
  (forall o o' : Official,
      name o = name o' -> title o = title o' -> email o = email o' ->
      phone o = phone o' -> linkedin_url o = linkedin_url o' ->
      fst (calculate_confidence_score o) = fst (calculate_confidence_score o')) /\
  (forall c : Official,
      map confidence_score
          (Eff.value (Legacy.score_and_deduplicate W [c] "" ""))
      = [Legacy.py_min 1.0%float (legacy_seed_score c)]).
Proof.
  intros H. split; [|split; [|split]].
  - rewrite <- (score_and_deduplicate_erase W l1),
            <- (score_and_deduplicate_erase W l2), H.
    reflexivity.
  - eapply Forall_impl; [|apply output_scores].
    intros o [Ho _]. exact Ho.
  - exact score_reads_five_fields.
  - apply legacy_single_candidate.
Qed.

Lemma confidence_recomputed_from_fields_witness :
  Eff.value (score_and_deduplicate offline
               [set_confidence_score jane_email 0.1%float;
                set_confidence_score jane_phone 1.0%float] "Springfield" "IL") =
  Eff.value (score_and_deduplicate offline [jane_email; jane_phone]
               "Springfield" "IL").
Proof.
  destruct (@confidence_recomputed_from_fields offline
              [set_confidence_score jane_email 0.1%float;
               set_confidence_score jane_phone 1.0%float]
              [jane_email; jane_phone] "Springfield" "IL" eq_refl) as [H _].
  rewrite H. reflexivity.
Defined.

(** ** Site discovery *)

Section DiscoveryFacts.

Variable fetch : string -> option response.

Lemma first_working_found (accept : response -> bool) (pre : list string) :
  forall (u : string) (post : list string),
    Forall (fun x => accepted fetch accept x = false) pre ->
    accepted fetch accept u = true ->
    first_working fetch accept (pre ++ u :: post) = (Some u, pre ++ [u]).
Proof.
  unfold accepted.
  induction pre as [|x pre IH]; intros u post Hpre Hu; cbn [app first_working].
  - unfold make_request, Eff.bind.
    destruct (fetch u) as [r|]; [|discriminate Hu].
    rewrite Hu. reflexivity.
  - inversion Hpre as [|? ? Hx Hpre']; subst.
    unfold make_request, Eff.bind.
    specialize (IH u post Hpre' Hu).
    destruct (fetch x) as [r|].
    + rewrite Hx, IH. reflexivity.
    + rewrite IH. reflexivity.
Qed.

Lemma first_working_none (accept : response -> bool) (urls : list string) :
  Forall (fun x => accepted fetch accept x = false) urls ->
  first_working fetch accept urls = (None, urls).
Proof.
  unfold accepted.
  induction urls as [|x urls IH]; intros H; cbn [first_working].
  - reflexivity.
  - inversion H as [|? ? Hx H']; subst.
    unfold make_request, Eff.bind. specialize (IH H').
    destruct (fetch x) as [r|].
    + rewrite Hx, IH. reflexivity.
    + rewrite IH. reflexivity.
Qed.

(** C5 (amended).  The classifier accepts a page exactly when (name found
    and state found) or (name found and at least one indicator) or (at
    least two indicators).  Discovery probes the generated URLs in list
    order and returns the first whose response has status 200 and
    satisfies the classifier, probing nothing after it.  When no generated
    URL is confirmed it returns no result, having probed them all --
    unless the municipality is Des Moines, IA (compared in lower case):
    then four known URLs are probed in order and the first that answers
    200 is returned, without classification. *)
Theorem find_municipal_website_spec (municipality state : string) :
  let urls := generate_url_patterns municipality state in
  let confirmed := accepted fetch (confirms municipality state) in
  (forall html,
      is_likely_municipal_site html municipality state =
      (name_found html municipality && state_found html state)
      || (name_found html municipality && (1 <=? indicator_count html municipality))
      || (2 <=? indicator_count html municipality)) /\
  (forall pre u post,
      urls = pre ++ u :: post ->
      Forall (fun x => confirmed x = false) pre ->
      confirmed u = true ->
      find_municipal_website fetch municipality state = (Some u, pre ++ [u])) /\
  (Forall (fun x => confirmed x = false) urls ->
   is_des_moines municipality state = false ->
   find_municipal_website fetch municipality state = (None, urls)) /\
  (Forall (fun x => confirmed x = false) urls ->
   is_des_moines municipality state = true ->
   (forall pre u post,
       direct_urls = pre ++ u :: post ->
       Forall (fun x => accepted fetch reachable x = false) pre ->
       accepted fetch reachable u = true ->
       find_municipal_website fetch municipality state
       = (Some u, urls ++ pre ++ [u])) /\
   (Forall (fun x => accepted fetch reachable x = false) direct_urls ->
    find_municipal_website fetch municipality state
    = (None, urls ++ direct_urls))).
Proof.
  cbv zeta. split; [|split; [|split]].
  - intros html. unfold is_likely_municipal_site.
    destruct (name_found html municipality), (state_found html state),
             (1 <=? indicator_count html municipality),
             (2 <=? indicator_count html municipality); reflexivity.
  - intros pre u post Hurls Hpre Hu.
    unfold find_municipal_website. rewrite Hurls.
    change (fun r : response =>
              (status_code r =? 200)
              && is_likely_municipal_site (text r) municipality state)
      with (confirms municipality state).
    rewrite (@first_working_found _ _ _ post Hpre Hu).
    unfold Eff.bind, Eff.ret. rewrite app_nil_r. reflexivity.
  - intros Hnone Hdm.
    unfold find_municipal_website.
    change (fun r : response =>
              (status_code r =? 200)
              && is_likely_municipal_site (text r) municipality state)
      with (confirms municipality state).
    rewrite (@first_working_none _ _ Hnone).
    unfold is_des_moines in Hdm. unfold Eff.bind. rewrite Hdm.
    unfold Eff.ret. rewrite app_nil_r. reflexivity.
  - intros Hnone Hdm.
    unfold find_municipal_website.
    change (fun r : response =>
              (status_code r =? 200)
              && is_likely_municipal_site (text r) municipality state)
      with (confirms municipality state).
    rewrite (@first_working_none _ _ Hnone).
    unfold is_des_moines in Hdm. unfold Eff.bind. rewrite Hdm.
    change (fun r : response => status_code r =? 200) with reachable.
    split.
    + intros pre u post Hd Hpre Hu. rewrite Hd.
      rewrite (@first_working_found _ _ _ post Hpre Hu). reflexivity.
    + intros Hd. rewrite (@first_working_none _ _ Hd). reflexivity.
Qed.

End DiscoveryFacts.

(** C5 (as stated, refuted).  No generated candidate for Des Moines, IA
    satisfies the classifier on this network, the page of
    [https://www.dsm.city] does not satisfy it either, and discovery
    returns that URL. *)
Lemma des_moines_fallback_unclassified :
  Forall (fun u => accepted only_dsm_city (confirms "Des Moines" "IA") u = false)
         (generate_url_patterns "Des Moines" "IA") /\
  is_likely_municipal_site "Welcome" "Des Moines" "IA" = false /\
  Eff.value (find_municipal_website only_dsm_city "Des Moines" "IA")
  = Some "https://www.dsm.city".
Proof.
  split; [|split].
  - apply Forall_forall. intros u Hu.
    vm_compute in Hu.
    repeat (destruct Hu as [<-|Hu]; [vm_compute; reflexivity|]).
    contradiction.
  - vm_compute. reflexivity.
  - vm_compute. reflexivity.
Qed.

Lemma find_municipal_website_spec_witness :
  find_municipal_website ames_network "Ames" "IA"
  = (Some "https://ame.gov", ["https://www.ame.gov"; "https://ame.gov"]).
Proof.
  destruct (find_municipal_website_spec ames_network "Ames" "IA")
    as (_ & H & _ & _).
  apply (H ["https://www.ame.gov"] "https://ame.gov"
           (skipn 2 (generate_url_patterns "Ames" "IA"))).
  - vm_compute. reflexivity.
  - constructor; [vm_compute; reflexivity | constructor].
  - vm_compute. reflexivity.
Defined.

(** ** The entry point *)

Lemma search_google_requests (W : World) (query : string) :
  Eff.requests (search_google W query) = [google_search_url query].
Proof.
  unfold search_google, get, Eff.bind, Eff.requests.
  destruct (http_get W (google_search_url query)) as [r|]; [|reflexivity].
  destruct (status_code r =? 200); reflexivity.
Qed.

(** C7 (as stated, refuted).  Called with an empty municipality name and
    an empty state, the entry point signals nothing: it issues requests,
    the first of them the Google search, and returns a list. *)
Lemma empty_arguments_reach_the_network :
  ~ (forall (W : World) (municipality_name state : string),
        municipality_name = "" \/ state = "" ->
        Eff.requests (search_for_officials W municipality_name state) = []) /\
  hd_error (Eff.requests (search_for_officials offline "" ""))
  = Some "https://www.google.com/search?q=++mayor+council+contact" /\
  Eff.value (search_for_officials offline "" "") = [].
Proof.
  split; [|split].
  - intros H. specialize (H offline "" "" (or_introl eq_refl)).
    vm_compute in H. discriminate H.
  - vm_compute. reflexivity.
  - vm_compute. reflexivity.
Qed.

(** C7 (amended).  The entry point validates neither argument.  For every
    municipality name and state, empty or not, its first action is the
    Google search request for "<name> <state> mayor council contact";
    it then probes for the municipal site and returns the list of
    resolved records (possibly empty), not an invalid-argument signal. *)
Theorem search_for_officials_first_request (W : World)
        (municipality_name state : string) :
  exists (first_pattern : string) (patterns later : list string),
    generate_url_patterns municipality_name state = first_pattern :: patterns /\
    Eff.requests (search_for_officials W municipality_name state) =
    google_search_url
      (municipality_name ++ " " ++ state ++ " mayor council contact")%string
    :: first_pattern :: later.
Proof.
  assert (Hp : exists u urls,
             generate_url_patterns municipality_name state = u :: urls).
  { unfold generate_url_patterns.
    destruct (String.eqb (lower municipality_name) "des moines"),
             (String.length state =? 2); cbn [app]; eexists; eexists; reflexivity. }
  destruct Hp as (u & urls & Hp).
  exists u, urls.
  unfold search_for_officials.
  rewrite requests_bind, search_google_requests.
  rewrite requests_bind.
  unfold find_municipal_website at 1. rewrite Hp.
  cbn [first_working]. rewrite !requests_bind.
  cbn [make_request Eff.requests snd app].
  eexists. split; reflexivity.
Qed.

(* ================================================================== *)
(** * Further properties of the code *)
(* ================================================================== *)

(** ** [validate_phone]: the canonical form *)

Lemma canonical_length (i : nat) :
  forall d : string,
    String.length d = i + 10 -> String.length (canonical_from i d) = 14.
Proof.
  induction i as [|i IH]; intros d Hlen.
  - do 10 (destruct d as [|? d]; [discriminate Hlen|]).
    destruct d; [reflexivity | discriminate Hlen].
  - destruct d as [|c d]; [discriminate Hlen|].
    simpl in Hlen. injection Hlen as Hlen.
    exact (IH d Hlen).
Qed.

(** X1.  A result of [validate_phone] is in canonical form: it has 14
    characters, and [validate_phone] accepts it and returns it unchanged. *)
Theorem validate_phone_result_canonical (phone formatted : string) :
  validate_phone phone = Some formatted ->
  String.length formatted = 14 /\
  validate_phone formatted = Some formatted.
Proof.
  intros H. split; [|exact (validate_phone_idempotent _ H)].
  rewrite validate_phone_unfold in H. cbv zeta in H.
  destruct (String.length (digits_of phone) =? 10) eqn:E10.
  - injection H as <-. apply Nat.eqb_eq in E10.
    apply canonical_length. exact E10.
  - destruct (String.length (digits_of phone) =? 11) eqn:E11; cbn [andb] in H.
    + destruct (startswith "1" (digits_of phone)); [|discriminate H].
      injection H as <-. apply Nat.eqb_eq in E11.
      apply canonical_length. exact E11.
    + discriminate H.
Qed.

Lemma validate_phone_result_canonical_witness :
  String.length "(515) 555-1234" = 14 /\
  validate_phone "(515) 555-1234" = Some "(515) 555-1234".
Proof.
  exact (@validate_phone_result_canonical "1.515.555.1234" "(515) 555-1234"
           eq_refl).
Defined.

(** ** The values of the score *)

Local Open Scope float_scope.

Lemma score_possible (o : Official) :
  In (fst (calculate_confidence_score o)) possible_scores.
Proof.
  rewrite calculate_confidence_score_eq. cbn [fst]. unfold signals.
  destruct (validate_official_name (name o)),
           (validate_official_title (title o)),
           (validate_email (email o)),
           (phone_formats o),
           (truthy (linkedin_url o));
    vm_compute; tauto.
Qed.

(** X2.  The score of every record lies between 0.0 and 1.0. *)
Theorem score_between_0_and_1 (o : Official) :
  (0.0 <=? fst (calculate_confidence_score o)) = true /\
  (fst (calculate_confidence_score o) <=? 1.0) = true.
Proof.
  rewrite calculate_confidence_score_eq. cbn [fst]. unfold signals.
  destruct (validate_official_name (name o)),
           (validate_official_title (title o)),
           (validate_email (email o)),
           (phone_formats o),
           (truthy (linkedin_url o)); split; reflexivity.
Qed.

(** X3.  A record reaches the default threshold 0.6 exactly when its name
    is valid together with its title, or with its email, or with both a
    formatting phone and a LinkedIn URL -- or when, its name being
    invalid, the four other signals all pass. *)
Theorem reaches_default_threshold_iff (o : Official) :
  (default_min_confidence <=? fst (calculate_confidence_score o)) =
  (validate_official_name (name o)
   && (validate_official_title (title o)
       || validate_email (email o)
       || (phone_formats o && truthy (linkedin_url o))))
  || (validate_official_title (title o) && validate_email (email o)
      && phone_formats o && truthy (linkedin_url o)).
Proof.
  rewrite calculate_confidence_score_eq. cbn [fst]. unfold signals.
  destruct (validate_official_name (name o)),
           (validate_official_title (title o)),
           (validate_email (email o)),
           (phone_formats o),
           (truthy (linkedin_url o)); reflexivity.
Qed.

(** ** [filter_officials] *)

Lemma with_formatted_phone_stamp (x : Official) (v : float) :
  with_formatted_phone (set_confidence_score x v)
  = set_confidence_score (with_formatted_phone x) v.
Proof.
  unfold with_formatted_phone. cbn [phone set_confidence_score].
  destruct (phone x) as [p|]; [destruct (validate_phone p)|]; reflexivity.
Qed.

Lemma stamped_fixed (o : Official) :
  calculate_confidence_score (stamped o) = (confidence_score (stamped o), stamped o).
Proof.
  rewrite (stamped_score o).
  rewrite (surjective_pairing (calculate_confidence_score (stamped o))) at 1.
  f_equal.
  rewrite calculate_confidence_score_eq. cbn [snd].
  unfold stamped. rewrite calculate_confidence_score_eq. cbn [fst snd].
  rewrite with_formatted_phone_stamp, with_formatted_phone_idempotent.
  reflexivity.
Qed.

Lemma stamped_idempotent (o : Official) : stamped (stamped o) = stamped o.
Proof.
  unfold stamped at 1. rewrite stamped_fixed. cbn [fst snd].
  destruct (stamped o). reflexivity.
Qed.

(** X4.  [filter_officials] is idempotent, and every record it returns is
    left as it is by a further scoring, which returns the score stamped on
    the record. *)
Theorem filter_officials_idempotent (l : list Official) (min_confidence : float) :
  filter_officials (filter_officials l min_confidence) min_confidence
  = filter_officials l min_confidence /\
  Forall (fun o => calculate_confidence_score o = (confidence_score o, o))
         (filter_officials l min_confidence).
Proof.
  rewrite !filter_officials_eq. split.
  - induction l as [|o l IH]; [reflexivity|].
    cbn [map filter].
    destruct (min_confidence <=? confidence_score (stamped o)) eqn:E.
    + cbn [map filter]. rewrite stamped_idempotent, E, IH. reflexivity.
    + exact IH.
  - apply Forall_forall. intros o Ho.
    apply filter_In in Ho. destruct Ho as [Hin _].
    apply in_map_iff in Hin. destruct Hin as (c & <- & _).
    apply stamped_fixed.
Qed.

Local Close Scope float_scope.

(** ** Merging and the score *)

Local Open Scope float_scope.

Lemma score_monotone (n t e p l e' p' l' : bool) :
  (e = true -> e' = true) -> (p = true -> p' = true) -> (l = true -> l' = true) ->
  (satisfied_weight [(n, 0.4); (t, 0.2); (e, 0.2); (p, 0.1); (l, 0.1)] / 1.0
   <=? satisfied_weight [(n, 0.4); (t, 0.2); (e', 0.2); (p', 0.1); (l', 0.1)] / 1.0)
  = true.
Proof.
  intros He Hp Hl.
  destruct n, t, e, p, l, e', p', l'; try reflexivity;
    try discriminate (He eq_refl); try discriminate (Hp eq_refl);
    discriminate (Hl eq_refl).
Qed.

Lemma validate_email_truthy (x : option string) :
  validate_email x = true -> truthy x = true.
Proof.
  destruct x as [e|]; [|discriminate]. destruct e; [discriminate | reflexivity].
Qed.

Lemma fill_truthy (x : option string) (later : list (option string)) :
  truthy x = true -> fill x later = x.
Proof. unfold fill. intros ->. reflexivity. Qed.

(** X5.  Merging never lowers the score: the record merged from a group
    scores at least what the first member of the group scores alone. *)
Theorem merge_never_lowers_score (first : Official) (others : list Official) :
  (fst (calculate_confidence_score first)
   <=? fst (calculate_confidence_score (merge_matches first others))) = true.
Proof.
  destruct (merge_matches_fields others first) as (Hn & Ht & _ & _ & He & Hp & Hl).
  cbv zeta in *.
  rewrite !calculate_confidence_score_eq. cbn [fst].
  change (total_weight (signals first)) with 1.0.
  change (total_weight (signals (merge_matches first others))) with 1.0.
  unfold signals. rewrite Hn, Ht.
  apply score_monotone.
  - intros H. rewrite He, (fill_truthy _ _ (validate_email_truthy _ H)). exact H.
  - unfold phone_formats. rewrite Hp.
    destruct (phone first) as [p|] eqn:E; [|discriminate].
    destruct (validate_phone p) eqn:Ev; [|discriminate].
    intros _. rewrite (fill_truthy (Some p)), Ev; [reflexivity|].
    destruct p; [discriminate Ev | reflexivity].
  - intros H. rewrite Hl, (fill_truthy _ _ H). exact H.
Qed.

(** ** Ranking *)

Lemma possible_scores_asymmetric :
  forallb (fun x => forallb (fun y => implb (x <? y) (negb (y <? x)))
                            possible_scores) possible_scores = true.
Proof. vm_compute. reflexivity. Qed.

Lemma possible_scores_ties :
  forallb (fun x => forallb (fun y => forallb (fun v =>
     implb ((x =? v) && (y =? v)) (negb (x <? y)))
     possible_scores) possible_scores) possible_scores = true.
Proof. vm_compute. reflexivity. Qed.

Lemma score_lt_asymmetric (x y : float) :
  In x possible_scores -> In y possible_scores ->
  (x <? y) = true -> (y <? x) = false.
Proof.
  intros Hx Hy H.
  pose proof possible_scores_asymmetric as HA.
  rewrite forallb_forall in HA. specialize (HA x Hx).
  rewrite forallb_forall in HA. specialize (HA y Hy).
  rewrite H in HA. cbn [implb] in HA.
  destruct (y <? x); [discriminate HA | reflexivity].
Qed.

Lemma score_tie_not_lt (x y v : float) :
  In x possible_scores -> In y possible_scores -> In v possible_scores ->
  (x =? v) = true -> (y =? v) = true -> (x <? y) = false.
Proof.
  intros Hx Hy Hv Ex Ey.
  pose proof possible_scores_ties as HT.
  rewrite forallb_forall in HT. specialize (HT x Hx).
  rewrite forallb_forall in HT. specialize (HT y Hy).
  rewrite forallb_forall in HT. specialize (HT v Hv).
  rewrite Ex, Ey in HT. cbn [andb implb] in HT.
  destruct (x <? y); [discriminate HT | reflexivity].
Qed.

Lemma insert_by_score_descending (x : Official) (l : list Official) :
  scored x -> Forall scored l -> descending l ->
  descending (insert_by_score x l).
Proof.
  intros Hx. induction l as [|y rest IH]; intros Hl Hd.
  - cbn. auto.
  - inversion Hl as [|? ? Hy Hrest]; subst.
    cbn [insert_by_score].
    destruct (confidence_score x <? confidence_score y) eqn:E.
    + destruct Hd as [Hhead Hd].
      specialize (IH Hrest Hd).
      cbn [descending]. split; [|exact IH].
      destruct rest as [|z rest'].
      * cbn [insert_by_score]. apply score_lt_asymmetric; assumption.
      * cbn [insert_by_score].
        destruct (confidence_score x <? confidence_score z).
        -- exact Hhead.
        -- apply score_lt_asymmetric; assumption.
    + cbn [descending]. split; [exact E | exact Hd].
Qed.

Lemma insert_by_score_scored (x : Official) (l : list Official) :
  scored x -> Forall scored l -> Forall scored (insert_by_score x l).
Proof.
  intros Hx Hl.
  apply Forall_forall. intros o Ho.
  apply (Permutation_in _ (insert_by_score_perm x l)) in Ho.
  destruct Ho as [<-|Ho]; [exact Hx|].
  rewrite Forall_forall in Hl. apply Hl. exact Ho.
Qed.

Lemma sort_by_score_descending (l : list Official) :
  Forall scored l -> descending (sort_by_score l) /\ Forall scored (sort_by_score l).
Proof.
  unfold sort_by_score. induction l as [|x l IH]; intros H; cbn [fold_right].
  - split; [exact I | constructor].
  - inversion H as [|? ? Hx Hl]; subst. destruct (IH Hl) as [Hd Hs].
    split.
    + apply insert_by_score_descending; assumption.
    + apply insert_by_score_scored; assumption.
Qed.

Lemma sort_by_score_fixed (l : list Official) :
  descending l -> sort_by_score l = l.
Proof.
  unfold sort_by_score. induction l as [|x l IH]; intros Hd; cbn [fold_right].
  - reflexivity.
  - destruct Hd as [Hhead Hd]. rewrite (IH Hd).
    destruct l as [|y l']; [reflexivity|].
    cbn [insert_by_score]. rewrite Hhead. reflexivity.
Qed.

Lemma insert_by_score_stable (v : float) (x : Official) (l : list Official) :
  In v possible_scores -> scored x -> Forall scored l ->
  scoring v (insert_by_score x l) = scoring v (x :: l).
Proof.
  intros Hv Hx. unfold scoring.
  induction l as [|y rest IH]; intros Hl; [reflexivity|].
  inversion Hl as [|? ? Hy Hrest]; subst.
  cbn [insert_by_score].
  destruct (confidence_score x <? confidence_score y) eqn:E; [|reflexivity].
  cbn [filter] in *. rewrite (IH Hrest).
  destruct (confidence_score x =? v) eqn:Ex;
    destruct (confidence_score y =? v) eqn:Ey; try reflexivity.
  rewrite (score_tie_not_lt Hx Hy Hv Ex Ey) in E. discriminate E.
Qed.

Lemma sort_by_score_stable (v : float) (l : list Official) :
  In v possible_scores -> Forall scored l ->
  scoring v (sort_by_score l) = scoring v l.
Proof.
  intros Hv. unfold sort_by_score.
  induction l as [|x l IH]; intros Hl; cbn [fold_right]; [reflexivity|].
  inversion Hl as [|? ? Hx Hl']; subst.
  rewrite insert_by_score_stable;
    [|assumption|assumption|apply sort_by_score_descending; assumption].
  unfold scoring in *. cbn [filter]. rewrite (IH Hl'). reflexivity.
Qed.

Lemma resolved_scored (W : World) (m s : string) (g : list (key * list Official)) :
  Forall scored (flat_map (resolved W m s) g).
Proof.
  apply Forall_forall. intros o Ho.
  apply in_flat_map in Ho. destruct Ho as ([k ms] & _ & Ho).
  unfold resolved in Ho. cbn [snd] in Ho.
  destruct ms as [|seed rest]; [contradiction|].
  destruct Ho as [<-|[]].
  destruct (resolve_fields W m s seed rest) as (_ & _ & _ & _ & _ & _ & Hc).
  unfold scored. rewrite Hc. apply score_possible.
Qed.

(** X13.  The records [score_and_deduplicate] returns are in descending
    order of confidence: no record is followed by one with a higher
    score. *)
Theorem output_descending (W : World) (l : list Official) (m s : string) :
  descending (Eff.value (score_and_deduplicate W l m s)).
Proof.
  rewrite score_and_deduplicate_value.
  apply sort_by_score_descending. apply resolved_scored.
Qed.

Lemma key_eqb_sym (a b : key) : key_eqb a b = key_eqb b a.
Proof.
  unfold key_eqb. rewrite (String.eqb_sym (fst a)), (String.eqb_sym (snd a)).
  reflexivity.
Qed.

Lemma keys_group_add_eq (k : key) (o : Official) (g : list (key * list Official)) :
  map fst (group_add k o g)
  = if existsb (key_eqb k) (map fst g) then map fst g else map fst g ++ [k].
Proof.
  induction g as [|[k' ms] g IH]; cbn [group_add map fst existsb app].
  - reflexivity.
  - destruct (key_eqb k k'); cbn [orb map fst]; [reflexivity|].
    rewrite IH. destruct (existsb (key_eqb k) (map fst g)); reflexivity.
Qed.

Lemma existsb_filter_other (k a : key) (ks : list key) :
  key_eqb k a = false ->
  existsb (key_eqb k) (filter (fun k' => negb (key_eqb a k')) ks)
  = existsb (key_eqb k) ks.
Proof.
  intros Hka. induction ks as [|x ks IH]; cbn [filter existsb]; [reflexivity|].
  destruct (key_eqb a x) eqn:E; cbn [negb existsb].
  - apply key_eqb_eq in E. subst x. rewrite Hka, IH. reflexivity.
  - rewrite IH. reflexivity.
Qed.

Lemma existsb_first_met (k : key) (ks : list key) :
  existsb (key_eqb k) (first_met ks) = existsb (key_eqb k) ks.
Proof.
  induction ks as [|a ks IH]; cbn [first_met existsb]; [reflexivity|].
  destruct (key_eqb k a) eqn:E; cbn [orb]; [reflexivity|].
  rewrite (@existsb_filter_other k a _ E). exact IH.
Qed.

Lemma first_met_snoc (ks : list key) (k : key) :
  first_met (ks ++ [k])
  = first_met ks ++ (if existsb (key_eqb k) ks then [] else [k]).
Proof.
  induction ks as [|a ks IH]; cbn [app first_met existsb]; [reflexivity|].
  rewrite IH, filter_app. f_equal.
  destruct (existsb (key_eqb k) ks).
  - rewrite orb_true_r. reflexivity.
  - rewrite orb_false_r. cbn [filter]. rewrite (key_eqb_sym a k).
    destruct (key_eqb k a); reflexivity.
Qed.

(** The dictionary of the grouping loop keeps its keys in the order in
    which the surviving candidates first bring them. *)
Lemma group_officials_first_met (l : list Official) :
  map fst (group_officials l) = first_met (map key_of (survivors l)).
Proof.
  induction l as [|o l IH] using rev_ind; [reflexivity|].
  rewrite group_officials_snoc, survivors_snoc, map_app.
  destruct (is_real_official o); cbn [map].
  - rewrite keys_group_add_eq, first_met_snoc, IH, existsb_first_met.
    destruct (existsb (key_eqb (key_of o)) (map key_of (survivors l)));
      [rewrite app_nil_r|]; reflexivity.
  - rewrite app_nil_r. exact IH.
Qed.

(** X14.  The ranking is stable.  Before the sort there is one record per
    merge key, in the order in which the keys are first met among the
    valid candidates of the input; the sort permutes these records, and
    the output records with one and the same score are still in that
    order. *)
Theorem output_ties_in_encounter_order (W : World) (l : list Official)
        (m s : string) (c : Official) :
  In c (Eff.value (score_and_deduplicate W l m s)) ->
  map key_of (flat_map (resolved W m s) (group_officials l))
  = first_met (map key_of (survivors l)) /\
  Permutation (Eff.value (score_and_deduplicate W l m s))
              (flat_map (resolved W m s) (group_officials l)) /\
  scoring (confidence_score c) (Eff.value (score_and_deduplicate W l m s))
  = scoring (confidence_score c)
            (flat_map (resolved W m s) (group_officials l)).
Proof.
  rewrite score_and_deduplicate_value. intros Hc.
  split; [|split].
  - rewrite keys_resolved; [apply group_officials_first_met|].
    intros k ms Hin. apply group_officials_In in Hin.
    destruct Hin as (_ & seed & rest & -> & _ & Hk).
    exists seed, rest. split; [reflexivity | exact Hk].
  - apply sort_by_score_perm.
  - pose proof (resolved_scored W m s (group_officials l)) as Hs.
    apply sort_by_score_stable; [|exact Hs].
    apply (Permutation_in _ (sort_by_score_perm _)) in Hc.
    rewrite Forall_forall in Hs. exact (Hs c Hc).
Qed.

Local Close Scope float_scope.

(** ** The requests of the resolution *)

Lemma search_linkedin_profile_requests (W : World) (n t m s : string) :
  Eff.requests (search_linkedin_profile W n t m s)
  = [google_search_url (n ++ " " ++ t ++ " " ++ m ++ " " ++ s ++ " linkedin")%string].
Proof.
  unfold search_linkedin_profile, get, Eff.bind, Eff.requests.
  destruct (http_get W _) as [r|]; [|reflexivity].
  destruct (negb (status_code r =? 200)); [reflexivity|].
  destruct (linkedin_link W (text r)); [reflexivity|].
  repeat match goal with
         | |- context [if ?c then _ else _] => destruct c
         end; reflexivity.
Qed.

Lemma resolve_group_requests (W : World) (m s : string) (acc : list Official)
      (item : key * list Official) :
  Eff.requests (resolve_group W m s acc item) = lookup_requests m s item.
Proof.
  unfold resolve_group, lookup_requests.
  destruct (snd item) as [|first others]; [reflexivity|].
  cbv zeta. rewrite requests_bind.
  destruct (negb (truthy (linkedin_url (merge_matches first others)))
            && nonempty m && nonempty s).
  - rewrite requests_bind, search_linkedin_profile_requests.
    cbn [Eff.ret Eff.value Eff.requests fst snd].
    destruct (calculate_confidence_score _) as [score best]. reflexivity.
  - cbn [Eff.ret Eff.value Eff.requests fst snd].
    destruct (calculate_confidence_score _) as [score best]. reflexivity.
Qed.

Lemma for_each_resolve_requests (W : World) (m s : string)
      (groups : list (key * list Official)) :
  forall acc,
    Eff.requests (Eff.for_each groups (resolve_group W m s) acc)
    = flat_map (lookup_requests m s) groups.
Proof.
  induction groups as [|item groups IH]; intros acc; cbn [Eff.for_each flat_map].
  - reflexivity.
  - rewrite requests_bind, IH, resolve_group_requests. reflexivity.
Qed.

Lemma score_and_deduplicate_requests (W : World) (l : list Official) (m s : string) :
  Eff.requests (score_and_deduplicate W l m s)
  = flat_map (lookup_requests m s) (group_officials l).
Proof.
  unfold score_and_deduplicate. destruct l as [|o l]; [reflexivity|].
  rewrite requests_bind, for_each_resolve_requests.
  cbn [Eff.ret Eff.requests snd]. apply app_nil_r.
Qed.

Lemma flat_map_length_le (A B : Type) (f : A -> list B) (xs : list A) :
  (forall x, List.length (f x) <= 1) ->
  List.length (flat_map f xs) <= List.length xs.
Proof.
  intros H. induction xs as [|x xs IH]; cbn [flat_map List.length]; [lia|].
  rewrite length_app. specialize (H x). lia.
Qed.

(** X11.  [score_and_deduplicate] touches the network only for LinkedIn
    lookups: it requests nothing when the municipality name or the state
    is empty, and otherwise at most one Google search per record it
    returns. *)
Theorem score_and_deduplicate_lookups (W : World) (l : list Official)
        (m s : string) :
  (m = "" \/ s = "" -> Eff.requests (score_and_deduplicate W l m s) = []) /\
  List.length (Eff.requests (score_and_deduplicate W l m s))
    <= List.length (Eff.value (score_and_deduplicate W l m s)) /\
  Forall (fun url => startswith "https://www.google.com/search?q=" url = true)
         (Eff.requests (score_and_deduplicate W l m s)).
Proof.
  rewrite score_and_deduplicate_requests. split; [|split].
  - intros H.
    assert (Hc : nonempty m && nonempty s = false).
    { destruct H as [-> | ->]; [reflexivity | apply andb_false_r]. }
    induction (group_officials l) as [|item g IH]; [reflexivity|].
    cbn [flat_map]. rewrite IH, app_nil_r.
    unfold lookup_requests. destruct (snd item); [reflexivity|].
    cbv zeta. rewrite <- andb_assoc, Hc, andb_false_r. reflexivity.
  - rewrite output_length. apply flat_map_length_le.
    intros item. unfold lookup_requests.
    destruct (snd item); [cbn; lia|]. cbv zeta.
    destruct (negb _ && _ && _); cbn; lia.
  - apply Forall_forall. intros url Hin.
    apply in_flat_map in Hin. destruct Hin as (item & _ & Hin).
    unfold lookup_requests in Hin. destruct (snd item); [contradiction|].
    cbv zeta in Hin. destruct (negb _ && _ && _); [|contradiction].
    destruct Hin as [<-|[]]. reflexivity.
Qed.

Lemma score_and_deduplicate_lookups_witness :
  Eff.requests (score_and_deduplicate offline [jane_email; jane_phone] "" "IL")
  = [].
Proof.
  destruct (score_and_deduplicate_lookups offline [jane_email; jane_phone] "" "IL")
    as (H & _).
  apply H. left. reflexivity.
Defined.

(** ** The size of the result *)

Lemma groups_at_most_survivors (l : list Official) :
  List.length (group_officials l) <= List.length (survivors l).
Proof.
  destruct (group_officials_spec l) as (Hnd & _ & Hk).
  rewrite <- (length_map fst), <- (length_map key_of (survivors l)).
  apply NoDup_incl_length; [exact Hnd|].
  intros k Hin. apply Hk. exact Hin.
Qed.

(** X12.  [score_and_deduplicate] returns at most as many records as there
    are candidates with a valid name and title; when no candidate is
    valid it returns the empty list and requests nothing. *)
Theorem score_and_deduplicate_size (W : World) (l : list Official) (m s : string) :
  List.length (Eff.value (score_and_deduplicate W l m s))
    <= List.length (survivors l) <= List.length l /\
  (survivors l = [] -> score_and_deduplicate W l m s = ([], [])).
Proof.
  split; [split|].
  - rewrite output_length. apply groups_at_most_survivors.
  - unfold survivors. apply filter_length_le.
  - intros H.
    rewrite (surjective_pairing (score_and_deduplicate W l m s)).
    change (fst (score_and_deduplicate W l m s))
      with (Eff.value (score_and_deduplicate W l m s)).
    change (snd (score_and_deduplicate W l m s))
      with (Eff.requests (score_and_deduplicate W l m s)).
    rewrite score_and_deduplicate_value, score_and_deduplicate_requests.
    rewrite group_officials_survivors, H. reflexivity.
Qed.

Lemma score_and_deduplicate_size_witness :
  score_and_deduplicate offline [acme_vendor] "Springfield" "IL" = ([], []).
Proof.
  destruct (score_and_deduplicate_size offline [acme_vendor] "Springfield" "IL")
    as (_ & H).
  apply H. reflexivity.
Defined.

(** ** Resolving a resolved list *)

Lemma finish_stamped (x : Official) : finish x = stamped x.
Proof.
  rewrite finish_eq. unfold stamped.
  rewrite calculate_confidence_score_eq. reflexivity.
Qed.

Lemma enrich_idempotent (W : World) (m s : string) (b : Official) :
  enrich W m s (enrich W m s b) = enrich W m s b.
Proof.
  destruct (negb (truthy (linkedin_url b)) && nonempty m && nonempty s) eqn:Ec.
  - destruct (truthy (Eff.value (search_linkedin_profile W (name b) (title b) m s)))
      eqn:Ef.
    + assert (He : enrich W m s b
                   = set_linkedin_url b
                       (Eff.value (search_linkedin_profile W (name b) (title b) m s))).
      { unfold enrich. rewrite Ec. cbv zeta. rewrite Ef. reflexivity. }
      rewrite He. unfold enrich. cbn [linkedin_url set_linkedin_url].
      rewrite Ef. reflexivity.
    + assert (He : enrich W m s b = b).
      { unfold enrich. rewrite Ec. cbv zeta. rewrite Ef. reflexivity. }
      rewrite !He. reflexivity.
  - assert (He : enrich W m s b = b).
    { unfold enrich. rewrite Ec. reflexivity. }
    rewrite !He. reflexivity.
Qed.

Lemma enrich_stamped (W : World) (m s : string) (e : Official) :
  enrich W m s e = e -> enrich W m s (stamped e) = stamped e.
Proof.
  intros He.
  assert (Hl : linkedin_url (stamped e) = linkedin_url e
               /\ name (stamped e) = name e /\ title (stamped e) = title e).
  { rewrite <- finish_stamped.
    destruct (finish_fields e) as (Hn & Ht & _ & Hl & _). auto. }
  destruct Hl as (Hl & Hn & Ht).
  unfold enrich in *. rewrite Hl, Hn, Ht.
  destruct (negb (truthy (linkedin_url e)) && nonempty m && nonempty s) eqn:Ec;
    [|reflexivity].
  cbv zeta in *.
  destruct (truthy (Eff.value (search_linkedin_profile W (name e) (title e) m s)))
    eqn:Ef; [|reflexivity].
  exfalso.
  apply (f_equal linkedin_url) in He. cbn [linkedin_url set_linkedin_url] in He.
  rewrite <- He, Ef in Ec. discriminate Ec.
Qed.

Lemma resolve_fixed (W : World) (m s : string) (seed : Official)
      (rest : list Official) :
  resolve W m s (resolve W m s seed rest) [] = resolve W m s seed rest.
Proof.
  unfold resolve. cbn [merge_matches fold_left].
  rewrite !finish_stamped.
  rewrite enrich_stamped; [apply stamped_idempotent|].
  apply enrich_idempotent.
Qed.

Lemma group_add_fresh (k : key) (o : Official) (g : list (key * list Official)) :
  ~ In k (map fst g) -> group_add k o g = g ++ [(k, [o])].
Proof.
  induction g as [|[k0 ms] g IH]; cbn [group_add map fst In app]; intros H.
  - reflexivity.
  - destruct (key_eqb k k0) eqn:E.
    + apply key_eqb_eq in E. exfalso. apply H. left. symmetry. exact E.
    + rewrite IH; [reflexivity|]. intros Hin. apply H. right. exact Hin.
Qed.

Lemma flat_map_fixed (A : Type) (f : A -> A) (l : list A) :
  (forall x, In x l -> f x = x) -> flat_map (fun x => [f x]) l = l.
Proof.
  induction l as [|x l IH]; intros H; [reflexivity|].
  cbn [flat_map app]. rewrite (H x (or_introl eq_refl)), IH; [reflexivity|].
  intros y Hy. apply H. right. exact Hy.
Qed.

(** A list of valid records with distinct keys is grouped one by one. *)
Lemma group_officials_distinct (l : list Official) :
  Forall (fun o => is_real_official o = true) l ->
  NoDup (map key_of l) ->
  group_officials l = map (fun o => (key_of o, [o])) l.
Proof.
  induction l as [|o l IH] using rev_ind; intros Hv Hnd; [reflexivity|].
  rewrite map_app in Hnd. cbn [map] in Hnd.
  apply Forall_app in Hv. destruct Hv as [Hv Ho].
  inversion Ho as [|? ? Hreal _]; subst.
  apply NoDup_remove in Hnd. rewrite app_nil_r in Hnd.
  destruct Hnd as [Hnd' Hfresh].
  rewrite group_officials_snoc, Hreal, (IH Hv Hnd'), map_app.
  apply group_add_fresh.
  rewrite map_map. cbn [fst]. exact Hfresh.
Qed.

(** X15.  Resolution is idempotent on its output: run on the list it
    returned, on the same network and for the same municipality,
    [score_and_deduplicate] returns that list again. *)
Theorem score_and_deduplicate_idempotent (W : World) (l : list Official)
        (m s : string) :
  let out := Eff.value (score_and_deduplicate W l m s) in
  Eff.value (score_and_deduplicate W out m s) = out.
Proof.
  cbv zeta.
  set (out := Eff.value (score_and_deduplicate W l m s)).
  assert (Hnd : NoDup (map key_of out)).
  { apply (Permutation_NoDup (Permutation_sym (output_keys W l m s))).
    apply group_officials_spec. }
  pose proof (output_valid W l m s) as Hvalid. fold out in Hvalid.
  rewrite score_and_deduplicate_value.
  rewrite (group_officials_distinct Hvalid Hnd).
  rewrite flat_map_concat_map, map_map.
  unfold resolved. cbn [snd].
  rewrite <- flat_map_concat_map.
  rewrite flat_map_fixed.
  - apply sort_by_score_fixed. unfold out.
    rewrite score_and_deduplicate_value.
    apply sort_by_score_descending. apply resolved_scored.
  - intros o Ho. apply output_iff in Ho.
    destruct Ho as (k & seed & rest & _ & ->). apply resolve_fixed.
Qed.

(** ** Site discovery: bounds, letter case and empty arguments *)

Lemma generate_url_patterns_length (municipality state : string) :
  List.length (generate_url_patterns municipality state)
  = 14 + (if String.eqb (lower municipality) "des moines" then 4 else 0)
       + (if String.length state =? 2 then 6 else 0).
Proof.
  unfold generate_url_patterns.
  destruct (String.eqb (lower municipality) "des moines"),
           (String.length state =? 2); reflexivity.
Qed.

Lemma generate_url_patterns_https (municipality state : string) :
  Forall (fun url => startswith "https://" url = true)
         (generate_url_patterns municipality state).
Proof.
  unfold generate_url_patterns.
  destruct (String.eqb (lower municipality) "des moines"),
           (String.length state =? 2);
    cbn [app]; repeat (constructor; [reflexivity|]); constructor.
Qed.

Lemma first_working_prefix (fetch : string -> option response)
      (accept : response -> bool) (urls : list string) :
  exists rest, urls = Eff.requests (first_working fetch accept urls) ++ rest.
Proof.
  induction urls as [|u urls IH]; cbn [first_working].
  - exists []. reflexivity.
  - destruct IH as (rest & IH).
    rewrite requests_bind. unfold make_request.
    change (Eff.requests (fetch u, [u])) with [u].
    change (Eff.value (fetch u, [u])) with (fetch u).
    cbn [app].
    destruct (fetch u) as [r|].
    + destruct (accept r).
      * exists urls. reflexivity.
      * exists rest. f_equal. exact IH.
    + exists rest. f_equal. exact IH.
Qed.

Lemma first_working_requests_le (fetch : string -> option response)
      (accept : response -> bool) (urls : list string) :
  List.length (Eff.requests (first_working fetch accept urls)) <= List.length urls.
Proof.
  destruct (first_working_prefix fetch accept urls) as (rest & H).
  apply (f_equal (@List.length string)) in H. rewrite length_app in H. lia.
Qed.

Lemma first_working_requests_Forall (fetch : string -> option response)
      (accept : response -> bool) (P : string -> Prop) (urls : list string) :
  Forall P urls -> Forall P (Eff.requests (first_working fetch accept urls)).
Proof.
  intros H. destruct (first_working_prefix fetch accept urls) as (rest & Hp).
  rewrite Hp in H. apply Forall_app in H. apply H.
Qed.

Lemma first_working_first (fetch : string -> option response)
      (accept : response -> bool) (u : string) (urls : list string) :
  exists later, Eff.requests (first_working fetch accept (u :: urls)) = u :: later.
Proof.
  cbn [first_working]. rewrite requests_bind. unfold make_request.
  change (Eff.requests (fetch u, [u])) with [u].
  cbn [app]. eexists. reflexivity.
Qed.

Lemma find_municipal_website_probes (fetch : string -> option response)
        (municipality state : string) :
  let requested := Eff.requests (find_municipal_website fetch municipality state) in
  1 <= List.length requested <= 28 /\
  Forall (fun url => startswith "https://" url = true) requested /\
  14 <= List.length (generate_url_patterns municipality state) <= 24.
Proof.
  cbv zeta.
  pose proof (generate_url_patterns_length municipality state) as Hlen.
  pose proof (generate_url_patterns_https municipality state) as Hhttps.
  assert (Hb : 14 <= List.length (generate_url_patterns municipality state) <= 24).
  { rewrite Hlen.
    destruct (String.eqb (lower municipality) "des moines"),
             (String.length state =? 2); cbn; lia. }
  unfold find_municipal_website. rewrite requests_bind.
  set (patterns := generate_url_patterns municipality state) in *.
  set (accept := fun r : response =>
                   (status_code r =? 200)
                   && is_likely_municipal_site (text r) municipality state).
  assert (Hfirst : 1 <= List.length (Eff.requests (first_working fetch accept patterns))).
  { destruct patterns as [|u us] eqn:E; [cbn in Hb; lia|].
    destruct (first_working_first fetch accept u us) as (later & ->). cbn. lia. }
  pose proof (first_working_requests_le fetch accept patterns) as Hle.
  pose proof (first_working_requests_Forall fetch accept Hhttps) as Hin.
  destruct (Eff.value (first_working fetch accept patterns)) as [url|].
  - cbn [Eff.ret Eff.requests snd]. rewrite app_nil_r.
    split; [lia|]. split; [exact Hin | exact Hb].
  - destruct (String.eqb (lower municipality) "des moines"
              && String.eqb (lower state) "ia").
    + pose proof (first_working_requests_le fetch
                    (fun r => status_code r =? 200) direct_urls) as Hle'.
      change (List.length direct_urls) with 4 in Hle'.
      rewrite length_app. split; [lia|]. split; [|exact Hb].
      apply Forall_app. split; [exact Hin|].
      apply first_working_requests_Forall.
      repeat (constructor; [reflexivity|]). constructor.
    + cbn [Eff.ret Eff.requests snd]. rewrite app_nil_r.
      split; [lia|]. split; [exact Hin | exact Hb].
Qed.

Lemma lower_char_idempotent (c : ascii) : lower_char (lower_char c) = lower_char c.
Proof.
  destruct c as [[] [] [] [] [] [] [] []]; reflexivity.
Qed.

Lemma lower_idempotent (s : string) : lower (lower s) = lower s.
Proof.
  induction s as [|c s IH]; cbn [lower]; [reflexivity|].
  rewrite lower_char_idempotent, IH. reflexivity.
Qed.

Lemma lower_length (s : string) : String.length (lower s) = String.length s.
Proof. induction s as [|c s IH]; cbn [lower String.length]; congruence. Qed.

Lemma first_working_ext (fetch : string -> option response)
      (a1 a2 : response -> bool) (urls : list string) :
  (forall r, a1 r = a2 r) ->
  first_working fetch a1 urls = first_working fetch a2 urls.
Proof.
  intros H. induction urls as [|u urls IH]; cbn [first_working]; [reflexivity|].
  unfold make_request, Eff.bind.
  destruct (fetch u) as [r|]; [rewrite H|]; rewrite IH; reflexivity.
Qed.

Lemma is_likely_municipal_site_lower (html municipality state : string) :
  is_likely_municipal_site html (lower municipality) (lower state)
  = is_likely_municipal_site html municipality state.
Proof.
  unfold is_likely_municipal_site, name_found, state_found, indicator_count.
  rewrite !lower_idempotent. reflexivity.
Qed.

(** X7.  Discovery does not depend on the letter case of its arguments:
    the generated URLs, the classifier and the whole of
    [find_municipal_website] are the same for a municipality and a state
    as for their lower-case forms; the classifier also ignores the case of
    the page. *)
Theorem discovery_ignores_case (fetch : string -> option response)
        (municipality state : string) :
  generate_url_patterns (lower municipality) (lower state)
  = generate_url_patterns municipality state /\
  (forall html,
      is_likely_municipal_site html (lower municipality) (lower state)
      = is_likely_municipal_site html municipality state /\
      is_likely_municipal_site (lower html) municipality state
      = is_likely_municipal_site html municipality state) /\
  find_municipal_website fetch (lower municipality) (lower state)
  = find_municipal_website fetch municipality state.
Proof.
  assert (Hg : generate_url_patterns (lower municipality) (lower state)
               = generate_url_patterns municipality state).
  { unfold generate_url_patterns.
    rewrite !lower_idempotent, lower_length. reflexivity. }
  split; [exact Hg|]. split.
  - intros html. split; [apply is_likely_municipal_site_lower|].
    unfold is_likely_municipal_site, name_found, state_found, indicator_count.
    rewrite !lower_idempotent. reflexivity.
  - unfold find_municipal_website. rewrite Hg, !lower_idempotent.
    rewrite (first_working_ext fetch
               (fun r => (status_code r =? 200)
                         && is_likely_municipal_site (text r) (lower municipality)
                              (lower state))
               (fun r => (status_code r =? 200)
                         && is_likely_municipal_site (text r) municipality state)
               (generate_url_patterns municipality state)).
    + reflexivity.
    + intros r. rewrite is_likely_municipal_site_lower. reflexivity.
Qed.

Lemma contains_empty (s : string) : contains "" s = true.
Proof. destruct s; reflexivity. Qed.

(** X8.  An empty municipality name is found in every page: the classifier
    then accepts a page as soon as the state occurs in it or one indicator
    does, and with an empty state too it accepts every page.  Discovery
    with both arguments empty therefore returns the first generated URL
    that answers 200, whatever the page says. *)
Theorem empty_municipality_accepts (fetch : string -> option response)
        (html state : string) :
  is_likely_municipal_site html "" state
  = state_found html state || (1 <=? indicator_count html "") /\
  is_likely_municipal_site html "" "" = true /\
  find_municipal_website fetch "" ""
  = first_working fetch reachable (generate_url_patterns "" "").
Proof.
  assert (Hn : forall h, name_found h "" = true).
  { intros h. unfold name_found. cbn [lower]. rewrite contains_empty. reflexivity. }
  assert (Hs : forall h, state_found h "" = true).
  { intros h. unfold state_found. cbn [lower]. apply contains_empty. }
  split; [|split].
  - unfold is_likely_municipal_site. rewrite Hn. cbn [andb].
    destruct (state_found html state); [reflexivity|].
    destruct (indicator_count html "") as [|[|n]]; reflexivity.
  - unfold is_likely_municipal_site. rewrite Hn, Hs. reflexivity.
  - unfold find_municipal_website.
    rewrite (first_working_ext fetch
               (fun r => (status_code r =? 200) && is_likely_municipal_site (text r) "" "")
               reachable (generate_url_patterns "" "")).
    + destruct (first_working fetch reachable (generate_url_patterns "" ""))
        as [[url|] w]; unfold Eff.bind; cbn; rewrite app_nil_r; reflexivity.
    + intros r. unfold reachable, is_likely_municipal_site.
      rewrite Hn, Hs. apply andb_true_r.
Qed.

(** ** Contact pages *)

Lemma rstrip_append (c : ascii) (s : string) :
  rstrip c (s ++ String c "") = rstrip c s.
Proof.
  induction s as [|a s IH]; cbn [append rstrip].
  - rewrite Ascii.eqb_refl. reflexivity.
  - rewrite IH. reflexivity.
Qed.

Lemma find_contact_pages_loop (fetch : string -> option response)
      (base_url : string) (paths : list string) :
  forall acc,
    Eff.for_each paths
      (fun contact_pages path =>
         let url := (rstrip "/" base_url ++ path)%string in
         response <- make_request fetch url ;;
         match response with
         | Some r =>
             if status_code r =? 200
             then Eff.ret (contact_pages ++ [url])
             else Eff.ret contact_pages
         | None => Eff.ret contact_pages
         end)
      acc
    = (acc ++ filter (accepted fetch reachable)
                     (map (fun path => (rstrip "/" base_url ++ path)%string) paths),
       map (fun path => (rstrip "/" base_url ++ path)%string) paths).
Proof.
  induction paths as [|path paths IH]; intros acc; cbn [Eff.for_each map filter].
  - unfold Eff.ret. rewrite app_nil_r. reflexivity.
  - unfold make_request, Eff.bind at 1, Eff.bind at 1, accepted, reachable.
    destruct (fetch (rstrip "/" base_url ++ path)%string) as [r|].
    + destruct (status_code r =? 200); unfold Eff.ret; rewrite IH; cbn [app].
      * rewrite <- app_assoc. reflexivity.
      * reflexivity.
    + unfold Eff.ret. rewrite IH. reflexivity.
Qed.

(** X9.  [find_contact_pages] probes every one of the 21 contact paths of
    the site, in the fixed order, and returns those that answer 200, in
    that order; trailing slashes of the base URL make no difference. *)
Theorem find_contact_pages_spec (fetch : string -> option response)
        (base_url : string) :
  find_contact_pages fetch base_url
  = (filter (accepted fetch reachable) (contact_urls base_url),
     contact_urls base_url) /\
  List.length (contact_urls base_url) = 21 /\
  find_contact_pages fetch (base_url ++ "/") = find_contact_pages fetch base_url.
Proof.
  assert (H : forall b, find_contact_pages fetch b
                        = (filter (accepted fetch reachable) (contact_urls b),
                           contact_urls b)).
  { intros b. unfold find_contact_pages. rewrite find_contact_pages_loop.
    reflexivity. }
  split; [apply H|]. split; [reflexivity|].
  rewrite !H. unfold contact_urls. rewrite rstrip_append. reflexivity.
Qed.

(** ** What the extractor hands over *)

Lemma validate_candidate_sanitised (o v : Official) :
  validate_candidate o = Some v ->
  sanitised v /\ name v = name o /\ title v = title o /\
  linkedin_url v = linkedin_url o /\ source v = source o /\
  confidence_score v = confidence_score o.
Proof.
  intros H. pose proof (validate_candidate_valid _ H) as Hreal.
  unfold validate_candidate in H.
  destruct (validate_official_name (name o) && validate_official_title (title o));
    [|discriminate H].
  injection H as <-. unfold sanitised. split; [split; [exact Hreal|]|].
  - split.
    + destruct (truthy (email o)) eqn:Et; cbn [andb].
      * destruct (validate_email (email o)) eqn:Ev; cbn [negb].
        -- intros _.
           repeat match goal with
                  | |- context [if ?c then _ else _] => destruct c
                  | |- context [match validate_phone ?p with _ => _ end] =>
                      destruct (validate_phone p)
                  end; exact Ev.
        -- repeat match goal with
                  | |- context [if ?c then _ else _] => destruct c
                  | |- context [match validate_phone ?p with _ => _ end] =>
                      destruct (validate_phone p)
                  end; discriminate.
      * repeat match goal with
               | |- context [if ?c then _ else _] => destruct c
               | |- context [match validate_phone ?p with _ => _ end] =>
                   destruct (validate_phone p)
               end; cbn [email set_phone set_email]; rewrite ?Et; discriminate.
    + cbv zeta.
      destruct (truthy (email o) && negb (validate_email (email o)));
        cbn [phone set_email];
        (destruct (truthy (phone o)) eqn:Ep;
         [destruct (validate_phone _) as [f|] eqn:Ev;
          [rewrite (validate_phone_nonempty _ Ev); cbn [phone set_phone];
           intros _; exists f; split;
           [reflexivity | exact (validate_phone_idempotent _ Ev)]
          | cbn [phone set_phone]; discriminate]
         | cbn [phone set_email]; rewrite Ep; discriminate]).
  - cbv zeta.
    repeat match goal with
           | |- context [if ?c then _ else _] => destruct c
           | |- context [match validate_phone ?p with _ => _ end] =>
               destruct (validate_phone p)
           end; repeat split.
Qed.

Lemma sanitised_fixed (v : Official) :
  sanitised v -> calculate_confidence_score v = (fst (calculate_confidence_score v), v).
Proof.
  intros (_ & _ & Hp).
  rewrite (surjective_pairing (calculate_confidence_score v)) at 1. f_equal.
  rewrite calculate_confidence_score_eq. cbn [snd].
  unfold with_formatted_phone.
  destruct (phone v) as [p|] eqn:Ep; [|reflexivity].
  destruct (validate_phone p) as [f|] eqn:Ev; [|reflexivity].
  assert (Ht : truthy (Some p) = true).
  { destruct p; [discriminate Ev | reflexivity]. }
  destruct (Hp Ht) as (f' & Hf' & Hv'). injection Hf' as <-.
  rewrite Hv' in Ev. injection Ev as <-.
  destruct v. cbn [phone] in Ep. subst. reflexivity.
Qed.

(** X10.  Every candidate [extract_officials_from_text] returns has a
    valid name and title, an email that is empty or passes
    [validate_email], and a phone that is empty or in canonical form; a
    scoring leaves such a record as it is. *)
Theorem extract_officials_sanitised (W : World) (text : string) :
  Forall (fun v => sanitised v /\ snd (calculate_confidence_score v) = v)
         (extract_officials_from_text W text).
Proof.
  unfold extract_officials_from_text.
  induction (pattern_candidates W text) as [|o cs IH]; cbn [validated_results].
  - constructor.
  - destruct (validate_candidate o) as [v|] eqn:E; [|exact IH].
    constructor; [|exact IH].
    destruct (validate_candidate_sanitised _ E) as (Hs & _).
    split; [exact Hs|]. rewrite (sanitised_fixed Hs). reflexivity.
Qed.

(** ** The three searches *)

Lemma for_each_invariant (A S : Type) (I : S -> Prop) (xs : list A)
      (body : S -> A -> Eff.M S) :
  (forall acc x, In x xs -> I acc -> I (Eff.value (body acc x))) ->
  forall acc, I acc -> I (Eff.value (Eff.for_each xs body acc)).
Proof.
  induction xs as [|x xs IH]; intros Hbody acc Hacc; cbn [Eff.for_each].
  - exact Hacc.
  - rewrite value_bind. apply IH.
    + intros acc' y Hy. apply Hbody. right. exact Hy.
    + apply Hbody; [left; reflexivity | exact Hacc].
Qed.

Lemma for_each_requests_length (A S : Type) (n : nat) (xs : list A)
      (body : S -> A -> Eff.M S) :
  (forall acc x, List.length (Eff.requests (body acc x)) <= n) ->
  forall acc,
    List.length (Eff.requests (Eff.for_each xs body acc)) <= n * List.length xs.
Proof.
  intros Hbody. induction xs as [|x xs IH]; intros acc; cbn [Eff.for_each].
  - cbn. lia.
  - rewrite requests_bind, length_app. cbn [List.length].
    specialize (Hbody acc x). specialize (IH (Eff.value (body acc x))). lia.
Qed.

Lemma extract_officials_all_sanitised (W : World) (text : string) :
  Forall sanitised (extract_officials_from_text W text).
Proof.
  unfold extract_officials_from_text.
  induction (pattern_candidates W text) as [|o cs IH]; cbn [validated_results].
  - constructor.
  - destruct (validate_candidate o) as [v|] eqn:E; [|exact IH].
    constructor; [|exact IH]. apply (validate_candidate_sanitised _ E).
Qed.

Lemma tagged_sanitised (W : World) (src text : string) :
  Forall (fun o => sanitised o /\ source o = src)
         (tagged src (extract_officials_from_text W text)).
Proof.
  unfold tagged. apply Forall_map.
  eapply Forall_impl; [|apply extract_officials_all_sanitised].
  intros o Hs. split; [exact Hs | reflexivity].
Qed.

Lemma tagged_sections_sanitised (W : World) (src : string) (texts : list string) :
  Forall (fun o => sanitised o /\ source o = src)
         (flat_map (fun t => tagged src (extract_officials_from_text W t)) texts).
Proof.
  induction texts as [|t texts IH]; cbn [flat_map]; [constructor|].
  apply Forall_app. split; [apply tagged_sanitised | exact IH].
Qed.

(** X16.  [search_google] issues exactly one request, and every record it
    returns has passed the extractor's validation and carries the source
    "Google Search". *)
Theorem search_google_spec (W : World) (query : string) :
  Eff.requests (search_google W query) = [google_search_url query] /\
  Forall (fun o => sanitised o /\ source o = "Google Search")
         (Eff.value (search_google W query)).
Proof.
  split; [apply search_google_requests|].
  unfold search_google, get, Eff.bind, Eff.value.
  destruct (http_get W (google_search_url query)) as [r|]; [|constructor].
  destruct (status_code r =? 200); [|constructor].
  cbn [Eff.ret fst]. apply tagged_sections_sanitised.
Qed.

Lemma scrape_municipal_website_requests (W : World) (website_url : string) :
  exists later,
    Eff.requests (scrape_municipal_website W website_url) = website_url :: later
    /\ List.length later <= 3.
Proof.
  unfold scrape_municipal_website. rewrite requests_bind.
  change (Eff.requests (get W website_url)) with [website_url].
  change (Eff.value (get W website_url)) with (http_get W website_url).
  cbn [app]. eexists. split; [reflexivity|].
  destruct (http_get W website_url) as [r|]; [|cbn; lia].
  destruct (status_code r =? 200); cbn [negb]; [|cbn; lia].
  etransitivity.
  - apply (@for_each_requests_length _ _ 1). intros acc link.
    rewrite requests_bind. change (Eff.requests (get W link)) with [link].
    change (Eff.value (get W link)) with (http_get W link).
    destruct (http_get W link) as [p|]; [|cbn; lia].
    destruct (status_code p =? 200); cbn; lia.
  - pose proof (firstn_le_length 3 (contact_links W website_url (text r))). lia.
Qed.

(** X17.  [scrape_municipal_website] requests the site first and then at
    most three of its pages; every record it returns has passed the
    extractor's validation and names as its source one of the first three
    contact links of the site's page. *)
Theorem scrape_municipal_website_spec (W : World) (website_url : string) :
  (exists later,
     Eff.requests (scrape_municipal_website W website_url) = website_url :: later
     /\ List.length later <= 3) /\
  Forall (fun o =>
            sanitised o /\
            exists r, http_get W website_url = Some r /\
                      In (source o) (firstn 3 (contact_links W website_url (text r))))
         (Eff.value (scrape_municipal_website W website_url)).
Proof.
  split; [apply scrape_municipal_website_requests|].
  unfold scrape_municipal_website. rewrite value_bind.
  change (Eff.value (get W website_url)) with (http_get W website_url).
  destruct (http_get W website_url) as [r|]; [|constructor].
  destruct (status_code r =? 200); cbn [negb]; [|constructor].
  apply for_each_invariant; [|constructor].
  intros acc link Hin Hacc. rewrite value_bind.
  change (Eff.value (get W link)) with (http_get W link).
  destruct (http_get W link) as [p|]; [|exact Hacc].
  destruct (status_code p =? 200); [|exact Hacc].
  cbn [Eff.ret Eff.value fst].
  assert (Hlink : forall l,
             Forall (fun o => sanitised o /\ source o = link) l ->
             Forall (fun o =>
                       sanitised o /\
                       exists r0, Some r = Some r0 /\
                                  In (source o)
                                     (firstn 3 (contact_links W website_url (text r0))))
                    l).
  { intros l. apply Forall_impl. intros o (Hs & ->).
    split; [exact Hs|]. exists r. split; [reflexivity | exact Hin]. }
  apply Forall_app. split; [exact Hacc|].
  apply Forall_app. split; apply Hlink.
  - apply tagged_sanitised.
  - apply tagged_sections_sanitised.
Qed.

Lemma find_contact_pages_eq (fetch : string -> option response)
      (base_url : string) :
  find_contact_pages fetch base_url
  = (filter (accepted fetch reachable) (contact_urls base_url),
     contact_urls base_url).
Proof.
  unfold find_contact_pages. rewrite find_contact_pages_loop. reflexivity.
Qed.

Lemma filter_length_le (A : Type) (f : A -> bool) (l : list A) :
  List.length (filter f l) <= List.length l.
Proof.
  induction l as [|a l IH]; cbn [filter List.length]; [lia|].
  destruct (f a); cbn [List.length]; lia.
Qed.

Lemma search_direct_for_officials_results (W : World)
      (municipality_name state : string) :
  Forall (fun o => stamped o = o
                   /\ (default_min_confidence <=? confidence_score o)%float = true)
         (Eff.value (search_direct_for_officials W municipality_name state)).
Proof.
  unfold search_direct_for_officials.
  rewrite !value_bind. cbn [Eff.ret Eff.value fst].
  rewrite filter_officials_eq. apply Forall_forall. intros o Ho.
  apply filter_In in Ho. destruct Ho as (Hin & Hscore).
  apply in_map_iff in Hin. destruct Hin as (o' & <- & _).
  split; [apply stamped_idempotent | exact Hscore].
Qed.

(** The log of [search_direct_for_officials]: the discovery; then, when a
    site was found, the 21 probes of its contact paths and the calls of
    [requests.get] of the scrapes, at most four for each page found. *)
Lemma search_direct_for_officials_log (W : World)
      (municipality_name state : string) :
  if truthy (Eff.value (find_municipal_website (fetch W) municipality_name state))
  then
    exists gets,
      Eff.requests (search_direct_for_officials W municipality_name state)
      = Eff.requests (find_municipal_website (fetch W) municipality_name state)
        ++ contact_urls
             (match Eff.value (find_municipal_website (fetch W)
                                 municipality_name state) with
              | Some u => u | None => "" end)
        ++ gets
      /\ List.length gets <= 84
  else
    Eff.requests (search_direct_for_officials W municipality_name state)
    = Eff.requests (find_municipal_website (fetch W) municipality_name state).
Proof.
  unfold search_direct_for_officials.
  rewrite requests_bind, requests_bind.
  cbn [Eff.ret Eff.requests snd]. rewrite app_nil_r.
  destruct (truthy (Eff.value (find_municipal_website (fetch W)
                                 municipality_name state)));
    [|cbn [snd]; rewrite app_nil_r; reflexivity].
  set (base := match Eff.value (find_municipal_website (fetch W)
                                  municipality_name state) with
               | Some u => u | None => "" end).
  rewrite requests_bind, find_contact_pages_eq.
  change (Eff.requests (filter (accepted (fetch W) reachable) (contact_urls base),
                        contact_urls base))
    with (contact_urls base).
  change (Eff.value (filter (accepted (fetch W) reachable) (contact_urls base),
                     contact_urls base))
    with (filter (accepted (fetch W) reachable) (contact_urls base)).
  eexists. split; [reflexivity|].
  pose proof (filter_length_le (accepted (fetch W) reachable)
                               (contact_urls base)) as Hf.
  assert (H21 : List.length (contact_urls base) = 21) by reflexivity.
  etransitivity.
  - apply (@for_each_requests_length _ _ 4). intros acc link.
    rewrite requests_bind. cbn [Eff.ret Eff.requests snd]. rewrite app_nil_r.
    destruct (scrape_municipal_website_requests W link) as (later & Hr & Hl).
    change (snd (scrape_municipal_website W link))
      with (Eff.requests (scrape_municipal_website W link)).
    rewrite Hr. cbn [List.length]. lia.
  - lia.
Qed.

Lemma search_direct_for_officials_requests_prefix (W : World)
      (municipality_name state : string) :
  exists later,
    Eff.requests (search_direct_for_officials W municipality_name state)
    = Eff.requests (find_municipal_website (fetch W) municipality_name state)
      ++ later.
Proof.
  unfold search_direct_for_officials. rewrite requests_bind.
  eexists. reflexivity.
Qed.

(** X19.  [search_for_officials] discovers the municipal site twice: its
    request log is the search request, a discovery, at most four requests
    of the scrape, the same discovery again, and what follows. *)
Theorem search_for_officials_discovers_twice (W : World)
        (municipality_name state : string) :
  let discovery :=
    Eff.requests (find_municipal_website (fetch W) municipality_name state) in
  exists scrape later,
    Eff.requests (search_for_officials W municipality_name state)
    = google_search_url (municipality_name ++ " " ++ state
                           ++ " mayor council contact")
      :: discovery ++ scrape ++ discovery ++ later
    /\ List.length scrape <= 4.
Proof.
  cbv zeta. unfold search_for_officials.
  rewrite requests_bind, search_google_requests.
  rewrite requests_bind. rewrite requests_bind. rewrite requests_bind.
  destruct (search_direct_for_officials_requests_prefix W municipality_name state)
    as (rest & ->).
  rewrite <- (app_assoc _ rest). cbn [app].
  eexists. eexists. split.
  - reflexivity.
  - destruct (Eff.value (find_municipal_website (fetch W) municipality_name state))
      as [url|]; [|cbn; lia].
    destruct (nonempty url); [|cbn; lia].
    destruct (scrape_municipal_website_requests W url) as (l & -> & Hl).
    cbn [List.length]. lia.
Qed.

(** ** The retry loop of [make_request] *)

Lemma make_request_bounds (network : nat -> bool -> Retry.outcome)
      (calls retry_count : nat) (verify_ssl : bool) :
  let log := snd (Retry.make_request network calls retry_count verify_ssl) in
  List.length (flags log)
  <= (Retry.MAX_RETRIES - retry_count) + 1 + (if verify_ssl then 1 else 0) /\
  sleeps log <= Retry.MAX_RETRIES - retry_count /\
  (exists a b, flags log = repeat true a ++ repeat false b
               /\ (verify_ssl = false -> a = 0)).
Proof.
  cbv zeta.
  funelim (Retry.make_request network calls retry_count verify_ssl);
    try rewrite <- Heqcall; cbn [fst snd flags sleeps List.length];
    unfold Retry.MAX_RETRIES in *.
  - split; [lia|]. split; [lia|].
    destruct verify_ssl; [exists 1, 0 | exists 0, 1]; split; auto; discriminate.
  - destruct H as (Hl & Hs & a & b & Hf & Ha). split; [lia|]. split; [lia|].
    rewrite Hf, (Ha eq_refl). exists 1, b. split; [reflexivity | discriminate].
  - destruct H as (Hl & Hs & a & b & Hf & Ha). split; [lia|]. split; [lia|].
    rewrite Hf, (Ha eq_refl). exists 0, (S b). split; reflexivity.
  - split; [lia|]. split; [lia|]. exists 0, 1. split; reflexivity.
  - destruct H as (Hl & Hs & a & b & Hf & Ha).
    split; [destruct verify_ssl; lia|]. split; [lia|].
    rewrite Hf. destruct verify_ssl.
    + exists (S a), b. split; [reflexivity | discriminate].
    + rewrite (Ha eq_refl). exists 0, (S b). split; reflexivity.
  - split; [lia|]. split; [lia|].
    destruct verify_ssl; [exists 1, 0 | exists 0, 1]; split; auto; discriminate.
Qed.

(** X20.  A call of [make_request] as the package makes it (no retry yet,
    certificates verified) calls the network at most five times and
    sleeps at most three times; once it has given up verifying
    certificates it never verifies them again. *)
Theorem make_request_at_most_five_calls (network : nat -> bool -> Retry.outcome) :
  let log := snd (Retry.make_request network 0 0 true) in
  1 <= List.length (flags log) <= 5 /\
  sleeps log <= 3 /\
  exists verified unverified,
    flags log = repeat true verified ++ repeat false unverified.
Proof.
  cbv zeta.
  destruct (make_request_bounds network 0 0 true) as (Hl & Hs & a & b & Hf & _).
  cbv zeta in Hl, Hs, Hf. unfold Retry.MAX_RETRIES in *.
  split; [split; [|cbn in Hl; lia]|split; [cbn in Hs; lia|exists a, b; exact Hf]].
  funelim (Retry.make_request network 0 0 true);
    try rewrite <- Heqcall; cbn [fst snd flags List.length]; lia.
Qed.

(** X21.  [make_request] returns the first response the network gives,
    and every call before it failed; it returns nothing only when every
    call failed and the retries are used up. *)
Theorem make_request_result (network : nat -> bool -> Retry.outcome)
        (calls retry_count : nat) (verify_ssl : bool) :
  let result := Retry.make_request network calls retry_count verify_ssl in
  let made := replay network calls (flags (snd result)) in
  match fst result with
  | Some r => exists errors,
      made = errors ++ [Retry.Responded r] /\ forallb failed errors = true
  | None => made <> [] /\ forallb failed made = true
            /\ Retry.MAX_RETRIES <= retry_count + sleeps (snd result)
  end.
Proof.
  cbv zeta.
  funelim (Retry.make_request network calls retry_count verify_ssl);
    try rewrite <- Heqcall; cbn [fst snd flags sleeps replay];
    unfold Retry.MAX_RETRIES in *.
  - exists []. rewrite Heq. split; reflexivity.
  - rewrite Heq.
    destruct (fst (Retry.make_request network (S calls) retry_count false)) as [r|].
    + destruct H as (errors & -> & Hf). exists (Retry.SSLError :: errors).
      split; [reflexivity | exact Hf].
    + destruct H as (Hne & Hf & Hs). split; [discriminate|].
      split; [exact Hf | exact Hs].
  - rewrite Heq0.
    destruct (fst (Retry.make_request network (S calls) (S retry_count) false))
      as [r|].
    + destruct H as (errors & -> & Hf). exists (Retry.SSLError :: errors).
      split; [reflexivity | exact Hf].
    + destruct H as (Hne & Hf & Hs). split; [discriminate|].
      split; [exact Hf | lia].
  - rewrite Heq0. split; [discriminate|]. split; [reflexivity | lia].
  - rewrite Heq0.
    destruct (fst (Retry.make_request network (S calls) (S retry_count) verify_ssl))
      as [r|].
    + destruct H as (errors & -> & Hf). exists (Retry.RequestError :: errors).
      split; [reflexivity | exact Hf].
    + destruct H as (Hne & Hf & Hs). split; [discriminate|].
      split; [exact Hf | lia].
  - rewrite Heq0. split; [discriminate|]. split; [reflexivity | lia].
Qed.

(** ** Probes and the HTTP requests behind them *)

Lemma http_calls_bounds (network : string -> nat -> bool -> Retry.outcome)
      (url : string) :
  1 <= http_calls network url <= 5.
Proof.
  unfold http_calls. generalize (network url). intros attempts.
  destruct (make_request_bounds attempts 0 0 true) as (Hl & _).
  cbv zeta in Hl. unfold Retry.MAX_RETRIES in Hl. split; [|cbn in Hl; lia].
  funelim (Retry.make_request attempts 0 0 true);
    try rewrite <- Heqcall; cbn [fst snd flags List.length]; lia.
Qed.

Lemma total_http_calls_bounds (network : string -> nat -> bool -> Retry.outcome)
      (probes : list string) :
  List.length probes <= total_http_calls network probes <= 5 * List.length probes.
Proof.
  unfold total_http_calls, list_sum.
  induction probes as [|url probes IH]; cbn [map fold_right List.length]; [lia|].
  pose proof (http_calls_bounds network url). lia.
Qed.

(** X6.  One discovery calls [make_request] for at least one and at most
    28 URLs, all of them [https://] URLs.  Each call makes between one and
    five HTTP requests, so one discovery makes at most 140 of them.
    [generate_url_patterns] yields between 14 and 24 URLs. *)
Theorem find_municipal_website_requests
        (network : string -> nat -> bool -> Retry.outcome)
        (municipality state : string) :
  let probes :=
    Eff.requests (find_municipal_website (retrying network) municipality state) in
  1 <= List.length probes <= 28 /\
  Forall (fun url => startswith "https://" url = true) probes /\
  List.length probes <= total_http_calls network probes <= 140 /\
  14 <= List.length (generate_url_patterns municipality state) <= 24.
Proof.
  cbv zeta.
  destruct (find_municipal_website_probes (retrying network) municipality state)
    as (Hlen & Hhttps & Hpatterns).
  cbv zeta in Hlen, Hhttps.
  pose proof (total_http_calls_bounds network
                (Eff.requests (find_municipal_website (retrying network)
                                 municipality state))) as Hcalls.
  split; [exact Hlen|]. split; [exact Hhttps|]. split; [lia | exact Hpatterns].
Qed.

(** X18.  Every record [search_direct_for_officials] returns carries its
    own score and reaches the default threshold.  The function begins with
    a discovery of the site.  When no site is found it asks nothing more;
    when one is found it probes the 21 contact paths of the site with
    [make_request], which costs between 21 and 105 HTTP requests, and then
    calls [requests.get] at most 84 times for the scrapes. *)
Theorem search_direct_for_officials_spec
        (network : string -> nat -> bool -> Retry.outcome) (W : World)
        (municipality_name state : string) :
  let run :=
    search_direct_for_officials (on_network network W) municipality_name state in
  let discovery :=
    find_municipal_website (retrying network) municipality_name state in
  let base := match Eff.value discovery with Some u => u | None => "" end in
  Forall (fun o => stamped o = o
                   /\ (default_min_confidence <=? confidence_score o)%float = true)
         (Eff.value run) /\
  (if truthy (Eff.value discovery)
   then
     exists gets,
       Eff.requests run = Eff.requests discovery ++ contact_urls base ++ gets /\
       List.length gets <= 84 /\
       21 <= total_http_calls network (contact_urls base) <= 105
   else Eff.requests run = Eff.requests discovery).
Proof.
  cbv zeta. split; [apply search_direct_for_officials_results|].
  pose proof (search_direct_for_officials_log (on_network network W)
                municipality_name state) as Hlog.
  cbn [on_network fetch] in Hlog.
  destruct (truthy (Eff.value (find_municipal_website (retrying network)
                                 municipality_name state)));
    [|exact Hlog].
  destruct Hlog as (gets & Hreq & Hgets).
  exists gets. split; [exact Hreq|]. split; [exact Hgets|].
  pose proof (total_http_calls_bounds network
                (contact_urls
                   (match Eff.value (find_municipal_website (retrying network)
                                       municipality_name state) with
                    | Some u => u | None => "" end))) as Hcalls.
  assert (H21 : forall b, List.length (contact_urls b) = 21) by reflexivity.
  rewrite H21 in Hcalls. lia.
Qed.

(** ** The validators *)

Lemma string_app_assoc (a b c : string) :
  ((a ++ b) ++ c = a ++ (b ++ c))%string.
Proof. induction a as [|x a IH]; cbn [append]; [reflexivity | rewrite IH; reflexivity]. Qed.

Lemma string_app_nil_r (a : string) : (a ++ "")%string = a.
Proof. induction a as [|x a IH]; cbn [append]; [reflexivity | rewrite IH; reflexivity]. Qed.

Lemma string_length_app (a b : string) :
  String.length (a ++ b) = String.length a + String.length b.
Proof. induction a as [|x a IH]; cbn [append String.length]; [reflexivity | rewrite IH; reflexivity]. Qed.

Lemma all_chars_app (p : ascii -> bool) (a b : string) :
  all_chars p (a ++ b) = all_chars p a && all_chars p b.
Proof.
  induction a as [|x a IH]; cbn [append all_chars]; [reflexivity|].
  rewrite IH, andb_assoc. reflexivity.
Qed.

Lemma some_char_app (p : ascii -> bool) (a b : string) :
  some_char p (a ++ b) = some_char p a || some_char p b.
Proof.
  induction a as [|x a IH]; cbn [append some_char]; [reflexivity|].
  rewrite IH, orb_assoc. reflexivity.
Qed.

Lemma lang_min_length (r : Re.regex) (s : string) :
  Re.lang r s -> min_length r <= String.length s.
Proof.
  induction 1; cbn [min_length String.length];
    rewrite ?string_length_app; lia.
Qed.

Lemma lang_classes_within (P : ascii -> bool) (r : Re.regex) (s : string) :
  Re.lang r s -> classes_within P r -> all_chars P s = true.
Proof.
  induction 1; cbn [classes_within]; intros Hc.
  - reflexivity.
  - cbn [all_chars]. rewrite (Hc c H). reflexivity.
  - destruct Hc as [H1 H2]. rewrite all_chars_app, IHlang1, IHlang2; auto.
  - destruct Hc as [H1 H2]. auto.
  - destruct Hc as [H1 H2]. auto.
  - reflexivity.
  - rewrite all_chars_app, IHlang1, IHlang2; auto.
Qed.

Ltac by_cases_on_char :=
  let c := fresh "c" in
  intros c; destruct c as [[] [] [] [] [] [] [] []]; vm_compute;
  intros; solve [reflexivity | discriminate].

Lemma email_pattern_chars : classes_within email_char email_pattern.
Proof.
  unfold email_pattern. cbv zeta.
  cbn [classes_within Re.plus Re.at_least_two Re.lit].
  repeat split; by_cases_on_char.
Qed.

Lemma newline_not_email_char (t : string) :
  all_chars email_char (t ++ newline)%string = false.
Proof.
  rewrite all_chars_app. apply andb_false_r.
Qed.

Lemma email_pattern_at (s : string) :
  Re.lang email_pattern s -> some_char (Ascii.eqb "@") s = true.
Proof.
  unfold email_pattern. cbv zeta. intros H.
  invert_lang H.
  match goal with
  | H : Re.lang (Re.Seq (Re.lit "@") _) _ |- _ => invert_lang H
  end.
  match goal with
  | H : Re.lang (Re.lit "@") _ |- _ => unfold Re.lit in H; invert_lang H
  end.
  rewrite some_char_app. cbn [append some_char].
  match goal with
  | H : Ascii.eqb "@" _ = true |- _ => rewrite H
  end.
  apply orb_true_r.
Qed.

(** X22.  An address [validate_email] accepts is, up to one newline at its
    end, at least six characters long, made of letters, digits and the
    characters [._%+-@] only, and has an [@]. *)
Theorem validate_email_shape (e : string) :
  validate_email (Some e) = true ->
  exists address,
    (e = address \/ e = (address ++ newline)%string) /\
    6 <= String.length address /\
    all_chars email_char address = true /\
    some_char (Ascii.eqb "@") address = true.
Proof.
  unfold validate_email. destruct (String.eqb e ""); [discriminate|].
  intros H. apply match_anchored_lang in H.
  assert (Hshape : forall a, Re.lang email_pattern a ->
                             6 <= String.length a /\
                             all_chars email_char a = true /\
                             some_char (Ascii.eqb "@") a = true).
  { intros a Ha. split; [exact (@lang_min_length _ _ Ha)|].
    split; [exact (@lang_classes_within email_char _ _ Ha email_pattern_chars)|].
    exact (email_pattern_at Ha). }
  destruct H as [H | (t & -> & H)].
  - exists e. split; [left; reflexivity | exact (Hshape _ H)].
  - exists t. split; [right; reflexivity | exact (Hshape _ H)].
Qed.

(** X23.  [validate_email] accepts an accepted address with a newline
    added at its end: the [$] of the pattern also holds just before a
    final newline. *)
Theorem validate_email_trailing_newline (e : string) :
  validate_email (Some e) = true ->
  all_chars email_char e = true ->
  validate_email (Some (e ++ newline)%string) = true.
Proof.
  unfold validate_email. destruct (String.eqb e "") eqn:Ee; [discriminate|].
  intros H Hchars. apply match_anchored_lang in H.
  destruct H as [H | (t & -> & _)].
  - destruct (String.eqb (e ++ newline)%string "") eqn:E.
    + apply String.eqb_eq in E. apply append_empty_inv in E.
      destruct E as [_ E]. discriminate E.
    + apply match_anchored_lang. right. exists e. split; [reflexivity | exact H].
  - rewrite newline_not_email_char in Hchars. discriminate Hchars.
Qed.

Lemma validate_email_trailing_newline_witness :
  validate_email (Some "clerk@ames.gov") = true /\
  validate_email (Some ("clerk@ames.gov" ++ newline)%string) = true.
Proof.
  split; [reflexivity|].
  apply (validate_email_trailing_newline "clerk@ames.gov"); reflexivity.
Defined.

Lemma validate_email_shape_witness :
  exists address,
    ("clerk@ames.gov" = address \/ "clerk@ames.gov" = (address ++ newline)%string) /\
    6 <= String.length address /\
    all_chars email_char address = true /\
    some_char (Ascii.eqb "@") address = true.
Proof.
  apply (validate_email_shape "clerk@ames.gov"). reflexivity.
Defined.

(** X24.  In [validate_official_title] the test for "director" and "chief"
    never decides: both words are among the common titles, which are
    tested first. *)
Theorem director_test_never_decides (title : string) :
  validate_official_title title
  = negb (String.eqb title "")
    && (existsb (fun common_title => contains common_title (lower title))
                COMMON_OFFICIAL_TITLES
        || negb (existsb (fun indicator => contains indicator (lower title))
                         NON_OFFICIAL_INDICATORS)
           && (4 <=? String.length title)).
Proof.
  unfold validate_official_title. destruct (String.eqb title ""); [reflexivity|].
  cbn [negb andb].
  destruct (existsb (fun common_title => contains common_title (lower title))
                    COMMON_OFFICIAL_TITLES) eqn:E; [reflexivity|].
  cbn [orb]. cbn [existsb COMMON_OFFICIAL_TITLES] in E.
  repeat match type of E with
         | (_ || _) = false =>
             let H := fresh "H" in
             apply orb_false_iff in E; destruct E as [H E]
         end.
  repeat match goal with
         | H : contains _ (lower title) = false |- _ => rewrite H; clear H
         end.
  cbn [orb].
  destruct (existsb (fun indicator => contains indicator (lower title))
                    NON_OFFICIAL_INDICATORS); reflexivity.
Qed.

(** X25.  A common title anywhere in a title makes it valid, whatever
    else the title contains, a denylisted word included. *)
Theorem common_title_outranks_denylist (title common_title : string) :
  In common_title COMMON_OFFICIAL_TITLES ->
  contains common_title (lower title) = true ->
  validate_official_title title = true.
Proof.
  intros Hin Hc. unfold validate_official_title.
  destruct (String.eqb title "") eqn:E.
  - apply String.eqb_eq in E. subst title. exfalso.
    cbn [COMMON_OFFICIAL_TITLES In] in Hin.
    repeat (destruct Hin as [<-|Hin]; [discriminate Hc|]). exact Hin.
  - assert (Hex : existsb (fun c => contains c (lower title))
                          COMMON_OFFICIAL_TITLES = true).
    { apply existsb_exists. exists common_title. split; assumption. }
    rewrite Hex. reflexivity.
Qed.

Lemma common_title_outranks_denylist_witness :
  existsb (fun indicator => contains indicator (lower "Vendor Relations Manager"))
          NON_OFFICIAL_INDICATORS = true /\
  validate_official_title "Vendor Relations Manager" = true.
Proof.
  split; [reflexivity|].
  apply (@common_title_outranks_denylist "Vendor Relations Manager" "manager").
  - cbn [COMMON_OFFICIAL_TITLES In]. repeat (first [left; reflexivity | right]).
  - reflexivity.
Defined.

Lemma split_from_nonempty (s : string) :
  forall cur, cur <> "" -> 1 <= List.length (split_from cur s).
Proof.
  induction s as [|c s IH]; intros cur Hcur; cbn [split_from].
  - destruct (String.eqb cur "") eqn:E;
      [apply String.eqb_eq in E; contradiction | cbn; lia].
  - destruct (is_space c).
    + destruct (String.eqb cur "") eqn:E;
        [apply String.eqb_eq in E; contradiction | cbn; lia].
    + apply IH. destruct cur; discriminate.
Qed.

Lemma split_from_word (w : string) :
  forall cur s,
    all_chars not_space w = true ->
    split_from cur (w ++ s) = split_from (cur ++ w) s.
Proof.
  induction w as [|c w IH]; intros cur s Hw; cbn [append].
  - rewrite string_app_nil_r. reflexivity.
  - cbn [all_chars] in Hw. apply andb_true_iff in Hw. destruct Hw as [Hc Hw].
    unfold not_space in Hc. apply negb_true_iff in Hc.
    cbn [split_from]. rewrite Hc. rewrite (IH _ _ Hw).
    rewrite string_app_assoc. reflexivity.
Qed.

Lemma two_words_split (w1 w2 rest : string) :
  is_word w1 -> is_word w2 ->
  2 <= List.length (split (w1 ++ String " " (w2 ++ rest))).
Proof.
  intros [Hn1 Hw1] [Hn2 Hw2]. unfold split.
  rewrite (split_from_word _ _ _ Hw1). cbn [append split_from].
  change (is_space " ") with true. cbv iota.
  destruct (String.eqb w1 "") eqn:E;
    [apply String.eqb_eq in E; contradiction|].
  rewrite (split_from_word _ _ _ Hw2). cbn [append List.length].
  pose proof (split_from_nonempty rest Hn2). lia.
Qed.

Lemma name_word_is_word (w : string) :
  Re.lang (Re.Seq (Re.Class is_upper) (Re.plus (Re.Class is_lower))) w ->
  is_word w.
Proof.
  intros H. split.
  - apply lang_min_length in H. cbn in H. destruct w; [cbn in H; lia | discriminate].
  - apply (@lang_classes_within not_space _ _ H).
    cbn [classes_within Re.plus]. repeat split; by_cases_on_char.
Qed.

Lemma name_pattern_shape (s : string) :
  Re.lang name_pattern s ->
  exists w1 w2 rest,
    s = (w1 ++ String " " (w2 ++ rest))%string /\ is_word w1 /\ is_word w2.
Proof.
  unfold name_pattern. cbv zeta. intros H.
  invert_lang H.
  match goal with
  | H : Re.lang (Re.plus _) _ |- _ => unfold Re.plus at 1 in H; invert_lang H
  end.
  match goal with
  | H : Re.lang (Re.Seq (Re.lit " ") _) _ |- _ => invert_lang H
  end.
  match goal with
  | H : Re.lang (Re.lit " ") _ |- _ => unfold Re.lit in H; invert_lang H
  end.
  match goal with
  | H : Ascii.eqb " " _ = true |- _ => apply Ascii.eqb_eq in H; subst
  end.
  cbn [append]. eexists. eexists. eexists. split.
  - reflexivity.
  - split; apply name_word_is_word; assumption.
Qed.

(** X26.  A name [validate_official_name] accepts has at least four
    characters and at least two words. *)
Theorem valid_name_two_words (name : string) :
  validate_official_name name = true ->
  4 <= String.length name /\ 2 <= List.length (split name).
Proof.
  unfold validate_official_name.
  destruct (String.length name <? 4) eqn:El; [discriminate|].
  apply Nat.ltb_ge in El.
  destruct (existsb _ NON_OFFICIAL_INDICATORS); [discriminate|].
  destruct (Re.match_anchored name_pattern name) eqn:Em.
  - intros _. split; [exact El|].
    apply match_anchored_lang in Em. destruct Em as [H | (t & -> & H)].
    + destruct (name_pattern_shape H) as (w1 & w2 & rest & -> & H1 & H2).
      apply two_words_split; assumption.
    + destruct (name_pattern_shape H) as (w1 & w2 & rest & -> & H1 & H2).
      rewrite string_app_assoc. cbn [append]. rewrite string_app_assoc.
      apply two_words_split; assumption.
  - destruct (existsb _ suspicious_parts); [discriminate|].
    cbv zeta. intros H. apply andb_true_iff in H. destruct H as [H _].
    apply Nat.leb_le in H. split; assumption.
Qed.

Lemma valid_name_two_words_witness :
  4 <= String.length "Jane Doe" /\ 2 <= List.length (split "Jane Doe").
Proof.
  apply (valid_name_two_words "Jane Doe"). reflexivity.
Defined.

Lemma output_ties_in_encounter_order_witness :
  map name (Eff.value (score_and_deduplicate offline
                         [jane_clerk; bob_mayor; ann_clerk] "Ames" "IA"))
  = ["Bob Smith"; "Jane Doe"; "Ann Lee"] /\
  map name (scoring 0.6000000000000001%float
              (Eff.value (score_and_deduplicate offline
                            [jane_clerk; bob_mayor; ann_clerk] "Ames" "IA")))
  = ["Jane Doe"; "Ann Lee"] /\
  first_met (map key_of (survivors [jane_clerk; bob_mayor; ann_clerk]))
  = [("jane doe", "clerk"); ("bob smith", "mayor"); ("ann lee", "clerk")].
Proof.
  split; [vm_compute; reflexivity|].
  destruct (@output_ties_in_encounter_order offline
              [jane_clerk; bob_mayor; ann_clerk] "Ames" "IA"
              (mkOfficial "Jane Doe" "Clerk" None None None
                          "https://city.gov/staff" 0.6000000000000001%float))
    as (Hkeys & _ & Hties).
  - right. left. vm_compute. reflexivity.
  - cbn [confidence_score] in Hties. rewrite Hties, <- Hkeys.
    split; vm_compute; reflexivity.
Defined.
